(** * helm-set-status: the status vocabulary, the transition engine
      [SetStatus] and the command wrapper [runWithConfigFactory].

    The development follows the two Go packages of the plugin:
    [pkg/status] (status.go) and the command in package [main].
    The release store behind [cfg.Releases] belongs to helm and is kept
    abstract: the engine is written against its three operations, and
    two concrete stores are given afterwards to run the engine on. *)

From Stdlib Require Import String Ascii ZArith List Bool.
From stdpp Require Import base option list strings pretty gmap.

Local Open Scope Z_scope.

(** ** Text helpers (Go's [fmt] verbs) *)

Module Fmt.

(** The two characters that cannot be written inside a string literal. *)
Definition dquote : string := String "034"%char EmptyString.
Definition newline : string := String "010"%char EmptyString.

Definition hexdigit (n : N) : ascii :=
  match n with
  | 0 => "0" | 1 => "1" | 2 => "2" | 3 => "3" | 4 => "4" | 5 => "5"
  | 6 => "6" | 7 => "7" | 8 => "8" | 9 => "9" | 10 => "a" | 11 => "b"
  | 12 => "c" | 13 => "d" | 14 => "e" | _ => "f"
  end%N%char.

(** [strconv.Quote] on one byte of an ASCII string: the quote and the
    backslash are escaped, control characters get their Go escapes, every
    other byte is copied.  This is Go's rendering for strings made of
    ASCII bytes (see [is_ascii] below); what Go does with other bytes depends
    on UTF-8 decoding and on the Unicode tables, which are not reproduced
    here, so every statement that spells out a quoted text is made for
    ASCII strings only. *)
Definition quote_char (c : ascii) : string :=
  let n := N_of_ascii c in
  if (n =? 34)%N then String "\" dquote
  else if (n =? 92)%N then "\\"
  else if (n =? 7)%N then "\a"
  else if (n =? 8)%N then "\b"
  else if (n =? 12)%N then "\f"
  else if (n =? 10)%N then "\n"
  else if (n =? 13)%N then "\r"
  else if (n =? 9)%N then "\t"
  else if (n =? 11)%N then "\v"
  else if ((n <? 32) || (n =? 127))%N then
    String "\" (String "x" (String (hexdigit (n / 16)) (String (hexdigit (n mod 16)) EmptyString)))
  else String c EmptyString.

Fixpoint quote_body (s : string) : string :=
  match s with
  | EmptyString => EmptyString
  | String c s' => quote_char c +:+ quote_body s'
  end.

(** The verb [%q] on a string. *)
Definition quote (s : string) : string := dquote +:+ quote_body s +:+ dquote.

(** Strings made of ASCII bytes only. *)
Definition is_ascii_char (c : ascii) : bool := (N_of_ascii c <? 128)%N.

Fixpoint is_ascii (s : string) : bool :=
  match s with
  | EmptyString => true
  | String c s' => is_ascii_char c && is_ascii s'
  end.

(** Bytes that [%q] copies unchanged: printable ASCII other than the quote
    and the backslash. *)
Definition plain_char (c : ascii) : bool :=
  let n := N_of_ascii c in
  ((32 <=? n) && (n <? 127) && negb (n =? 34) && negb (n =? 92))%N.

Fixpoint plain (s : string) : bool :=
  match s with
  | EmptyString => true
  | String c s' => plain_char c && plain s'
  end.

(** The verb [%d] on an [int]. *)
Definition decimal (n : Z) : string := pretty n.

Fixpoint join (sep : string) (l : list string) : string :=
  match l with
  | [] => EmptyString
  | [s] => s
  | s :: l' => s +:+ sep +:+ join sep l'
  end.

(** The verb [%v] on a [[]string]. *)
Definition slice (l : list string) : string := "[" +:+ join " " l +:+ "]".

(** [strings.HasPrefix s p] and [strings.Contains s sub], as tests. *)
Fixpoint prefixb (p s : string) : bool :=
  match p, s with
  | EmptyString, _ => true
  | String a p', String b s' => Ascii.eqb a b && prefixb p' s'
  | String _ _, EmptyString => false
  end.

Fixpoint containsb (s sub : string) : bool :=
  prefixb sub s ||
  match s with
  | EmptyString => false
  | String _ s' => containsb s' sub
  end.

(** [strings.Contains s sub], as a proposition. *)
Definition Contains (s sub : string) : Prop :=
  exists pre post, s = pre +:+ sub +:+ post.

End Fmt.

(** ** helm's [release.Status]

    [type Status string] with the method [String() string] returning the
    string itself; the constants below are the ones [ParseStatus] names. *)

Definition Status : Type := string.

Definition Status_String (x : Status) : string := x.

Definition StatusUnknown : Status := "unknown".
Definition StatusDeployed : Status := "deployed".
Definition StatusSuperseded : Status := "superseded".
Definition StatusFailed : Status := "failed".
Definition StatusUninstalling : Status := "uninstalling".
Definition StatusPendingInstall : Status := "pending-install".
Definition StatusPendingUpgrade : Status := "pending-upgrade".
Definition StatusPendingRollback : Status := "pending-rollback".

(** ** Go error values

    [errorString] stands for an error without a cause ([errors.New],
    [fmt.Errorf] without [%w]); [wrapError] for [fmt.Errorf] with one
    [%w]; the last two are the error types of package [status]. *)

Inductive error : Type :=
| errorString (s : string)
| wrapError (msg : string) (err : error)
| ReleaseNotFoundError (ReleaseName : string)
| PreconditionError (CurrentStatus : Status) (AllowedStatuses : list Status).

(** statusListToStrings *)
Definition statusListToStrings (statuses : list Status) : list string :=
  map Status_String statuses.

(** The [Error()] method. *)
Definition Error (e : error) : string :=
  match e with
  | errorString s => s
  | wrapError msg _ => msg
  | ReleaseNotFoundError name => "release " +:+ Fmt.quote name +:+ " not found"
  | PreconditionError cur allowed =>
      "current status " +:+ Fmt.quote (Status_String cur) +:+
      " is not in allowed list: " +:+ Fmt.slice (statusListToStrings allowed)
  end.

(** [errors.As(err, &precondErr)] with [precondErr *PreconditionError]:
    walk the chain of causes until a [PreconditionError] is found. *)
Fixpoint As_PreconditionError (e : error) : option (Status * list Status) :=
  match e with
  | PreconditionError cur allowed => Some (cur, allowed)
  | wrapError _ e' => As_PreconditionError e'
  | _ => None
  end.

(** [errors.As(err, &notFoundErr)] with [notFoundErr *ReleaseNotFoundError]. *)
Fixpoint As_ReleaseNotFoundError (e : error) : option string :=
  match e with
  | ReleaseNotFoundError name => Some name
  | wrapError _ e' => As_ReleaseNotFoundError e'
  | _ => None
  end.

(** [fmt.Errorf(format, ..., err)] where the format has one [%w]: the
    message is the formatted text, the cause is [err]. *)
Definition Errorf_w (pre : string) (err : error) (post : string) : error :=
  wrapError (pre +:+ Error err +:+ post) err.

(** ** The status vocabulary (second part of status.go) *)

Definition ValidStatuses : list string :=
  [ "unknown"; "deployed"; "superseded"; "failed"; "uninstalling";
    "pending-install"; "pending-upgrade"; "pending-rollback" ].

Definition ParseStatus (s : string) : Status * option error :=
  if String.eqb s "unknown" then (StatusUnknown, None)
  else if String.eqb s "deployed" then (StatusDeployed, None)
  else if String.eqb s "superseded" then (StatusSuperseded, None)
  else if String.eqb s "failed" then (StatusFailed, None)
  else if String.eqb s "uninstalling" then (StatusUninstalling, None)
  else if String.eqb s "pending-install" then (StatusPendingInstall, None)
  else if String.eqb s "pending-upgrade" then (StatusPendingUpgrade, None)
  else if String.eqb s "pending-rollback" then (StatusPendingRollback, None)
  else (StatusUnknown, Some (errorString ("invalid status: " +:+ s))).

(** The loop of [ValidStatusesString]: [i] is the index of the head of
    [l], [result] the text built so far. *)
Fixpoint ValidStatusesString_loop (i : nat) (l : list string) (result : string) : string :=
  match l with
  | [] => result
  | s :: l' =>
      let result := if (0 <? i)%nat then result +:+ ", " else result in
      ValidStatusesString_loop (S i) l' (result +:+ s)
  end.

Definition ValidStatusesString : string :=
  ValidStatusesString_loop 0 ValidStatuses EmptyString.

(** ** helm's release record

    [release.Release] and its [Info].  The engine only ever touches three
    fields of [Info]; the remaining fields are carried along so that the
    frame of an update can be stated.  Time stamps, charts, values, hooks
    and labels are helm's own types and stand here as plain data.  A
    release kept by helm always carries its [Info], so the record holds it
    directly. *)

Definition Time : Type := Z.

Record Info : Type := mkInfo {
  Info_FirstDeployed : Time;
  Info_LastDeployed : Time;
  Info_Deleted : Time;
  Info_Description : string;
  Info_Status : Status;
  Info_Notes : string
}.

Record Release : Type := mkRelease {
  Release_Name : string;
  Release_Info : Info;
  Release_Chart : string * string;
  Release_Config : list (string * string);
  Release_Manifest : string;
  Release_Hooks : list string;
  Release_Version : Z;
  Release_Namespace : string;
  Release_Labels : list (string * string)
}.

(** The three assignments [rel.Info.X = v] as functions on the object. *)
Definition with_Status (s : Status) (r : Release) : Release :=
  let i := Release_Info r in
  mkRelease (Release_Name r)
    (mkInfo (Info_FirstDeployed i) (Info_LastDeployed i) (Info_Deleted i)
            (Info_Description i) s (Info_Notes i))
    (Release_Chart r) (Release_Config r) (Release_Manifest r) (Release_Hooks r)
    (Release_Version r) (Release_Namespace r) (Release_Labels r).

Definition with_Description (d : string) (r : Release) : Release :=
  let i := Release_Info r in
  mkRelease (Release_Name r)
    (mkInfo (Info_FirstDeployed i) (Info_LastDeployed i) (Info_Deleted i)
            d (Info_Status i) (Info_Notes i))
    (Release_Chart r) (Release_Config r) (Release_Manifest r) (Release_Hooks r)
    (Release_Version r) (Release_Namespace r) (Release_Labels r).

Definition with_LastDeployed (t : Time) (r : Release) : Release :=
  let i := Release_Info r in
  mkRelease (Release_Name r)
    (mkInfo (Info_FirstDeployed i) t (Info_Deleted i)
            (Info_Description i) (Info_Status i) (Info_Notes i))
    (Release_Chart r) (Release_Config r) (Release_Manifest r) (Release_Hooks r)
    (Release_Version r) (Release_Namespace r) (Release_Labels r).

(** ** Memory, store and the world a command runs in

    A [*release.Release] is an address [loc] into a heap of release
    objects, so that the object the engine writes to and the object a
    store keeps can be one and the same.  [D] is the private state of
    the storage driver. *)

Definition loc : Type := nat.

Record State (D : Type) : Type := mkState {
  heap : list Release;
  driver : D
}.
Arguments mkState {D} _ _.
Arguments heap {D} _.
Arguments driver {D} _.

(** helm's [storage.Storage], reduced to the three operations the engine
    calls.  A failing operation reports the driver's error message. *)
Record Storage (D : Type) : Type := mkStorage {
  Get : string -> Z -> State D -> (string + loc) * State D;
  Last : string -> State D -> (string + loc) * State D;
  Update : loc -> State D -> option string * State D
}.
Arguments mkStorage {D} _ _ _.
Arguments Get {D} _ _ _ _.
Arguments Last {D} _ _ _.
Arguments Update {D} _ _ _.

(** [action.Configuration]: only its [Releases] field is used. *)
Record Configuration (D : Type) : Type := mkConfiguration {
  Releases : Storage D
}.
Arguments mkConfiguration {D} _.
Arguments Releases {D} _.

(** Calls that leave the program, in the order they were made. *)
Inductive Call : Type :=
| CallConfigFactory
| CallGet (name : string) (version : Z)
| CallLast (name : string)
| CallUpdate (rel : loc).

Record World (D : Type) : Type := mkWorld {
  state : State D;
  clock : Time;
  stdout : string;
  calls : list Call
}.
Arguments mkWorld {D} _ _ _ _.
Arguments state {D} _.
Arguments clock {D} _.
Arguments stdout {D} _.
Arguments calls {D} _.

(** ** The command monad: state passing, [None] is a run-time panic *)

Definition M (D A : Type) : Type := World D -> option (A * World D).

Definition ret {D A} (a : A) : M D A := fun w => Some (a, w).

Definition bind {D A B} (m : M D A) (k : A -> M D B) : M D B :=
  fun w => match m w with
           | Some (a, w') => k a w'
           | None => None
           end.

Definition panic {D A} : M D A := fun _ => None.

Declare Scope cmd_scope.
Delimit Scope cmd_scope with cmd.
Notation "x <- m ;; k" := (bind m (fun x => k))
  (at level 100, m at next level, right associativity) : cmd_scope.
Notation "m ;;; k" := (bind m (fun _ => k))
  (at level 100, right associativity) : cmd_scope.
Local Open Scope cmd_scope.

Section Primitives.
Context {D : Type}.

Definition log (c : Call) (w : World D) : World D :=
  mkWorld (state w) (clock w) (stdout w) (calls w ++ [c]).

Definition put_state (s : State D) (w : World D) : World D :=
  mkWorld s (clock w) (stdout w) (calls w).

(** [cfg.Releases.Get(name, version)] *)
Definition Releases_Get (cfg : Configuration D) (name : string) (version : Z)
  : M D (string + loc) :=
  fun w => let '(r, s) := Get (Releases cfg) name version (state w) in
           Some (r, log (CallGet name version) (put_state s w)).

(** [cfg.Releases.Last(name)] *)
Definition Releases_Last (cfg : Configuration D) (name : string)
  : M D (string + loc) :=
  fun w => let '(r, s) := Last (Releases cfg) name (state w) in
           Some (r, log (CallLast name) (put_state s w)).

(** [cfg.Releases.Update(rel)] *)
Definition Releases_Update (cfg : Configuration D) (rel : loc)
  : M D (option string) :=
  fun w => let '(r, s) := Update (Releases cfg) rel (state w) in
           Some (r, log (CallUpdate rel) (put_state s w)).

(** Dereferencing [rel]; a pointer to nothing panics. *)
Definition deref (rel : loc) : M D Release :=
  fun w => match heap (state w) !! rel with
           | Some r => Some (r, w)
           | None => None
           end.

(** An assignment through [rel]. *)
Definition assign (rel : loc) (f : Release -> Release) : M D unit :=
  fun w => match heap (state w) !! rel with
           | Some r =>
               Some (tt, put_state (mkState (<[rel := f r]> (heap (state w)))
                                            (driver (state w))) w)
           | None => None
           end.

(** [helmtime.Now()] *)
Definition helmtime_Now : M D Time := fun w => Some (clock w, w).

(** [fmt.Fprintf(cmd.OutOrStdout(), ...)] with the text already formatted. *)
Definition Fprintf (text : string) : M D unit :=
  fun w => Some (tt, mkWorld (state w) (clock w) (stdout w +:+ text) (calls w)).

(** Invoking the [configFactory] argument. *)
Definition invoke (configFactory : unit -> error + Configuration D)
  : M D (error + Configuration D) :=
  fun w => Some (configFactory tt, log CallConfigFactory w).

End Primitives.

(** ** The transition engine (first part of status.go) *)

Section Engine.
Context {D : Type}.

(** The loop of the precondition check: [allowed] starts [false] and the
    first match sets it and leaves the loop. *)
Fixpoint allowed_loop (currentStatus : Status) (allowedFromStatuses : list Status) : bool :=
  match allowedFromStatuses with
  | [] => false
  | s :: rest => if String.eqb currentStatus s then true
                 else allowed_loop currentStatus rest
  end.

(** Lines 49-61: resolve the record.  The result is the record or the
    error [SetStatus] returns. *)
Definition resolve (cfg : Configuration D) (releaseName : string) (revision : Z)
  : M D (error + loc) :=
  if (0 <? revision)%Z then
    x <- Releases_Get cfg releaseName revision ;;
    match x with
    | inl err =>
        ret (inl (Errorf_w ("failed to get release " +:+ releaseName +:+
                            " revision " +:+ Fmt.decimal revision +:+ ": ")
                           (errorString err) EmptyString))
    | inr rel => ret (inr rel)
    end
  else
    x <- Releases_Last cfg releaseName ;;
    match x with
    | inl _ => ret (inl (ReleaseNotFoundError releaseName))
    | inr rel => ret (inr rel)
    end.

(** Lines 63-79: the precondition; [Some] is the error returned. *)
Definition precondition (rel : loc) (allowedFromStatuses : list Status)
  : M D (option error) :=
  if (0 <? length allowedFromStatuses)%nat then
    r <- deref rel ;;
    let currentStatus := Info_Status (Release_Info r) in
    if negb (allowed_loop currentStatus allowedFromStatuses)
    then ret (Some (PreconditionError currentStatus allowedFromStatuses))
    else ret None
  else ret None.

Definition SetStatus (cfg : Configuration D) (releaseName : string) (status : Status)
           (revision : Z) (allowedFromStatuses : list Status) : M D (option error) :=
  x <- resolve cfg releaseName revision ;;
  match x with
  | inl err => ret (Some err)
  | inr rel =>
      p <- precondition rel allowedFromStatuses ;;
      match p with
      | Some err => ret (Some err)
      | None =>
          assign rel (with_Status status) ;;;
          assign rel (with_Description ("status set to " +:+ Status_String status)) ;;;
          t <- helmtime_Now ;;
          assign rel (with_LastDeployed t) ;;;
          e <- Releases_Update cfg rel ;;
          match e with
          | Some err =>
              ret (Some (Errorf_w ("failed to update release " +:+ releaseName +:+ ": ")
                                  (errorString err) EmptyString))
          | None => ret None
          end
      end
  end.

(** ** The command wrapper (package main) *)

(** The loop over [fromStatuses]; [acc] is [allowedFromStatuses] so far. *)
Fixpoint parse_from (fromStatuses : list string) (acc : list Status) : error + list Status :=
  match fromStatuses with
  | [] => inr acc
  | s :: rest =>
      match ParseStatus s with
      | (_, Some err) =>
          inl (Errorf_w ("invalid --from status " +:+ Fmt.quote s +:+ ": ") err
                        (Fmt.newline +:+ "Valid statuses: " +:+ ValidStatusesString))
      | (parsed, None) => parse_from rest (acc ++ [parsed])
      end
  end.

Definition runWithConfigFactory (args : list string) (rev : Z)
           (fromStatuses : list string) (noFail : bool)
           (configFactory : unit -> error + Configuration D) : M D (option error) :=
  match args !! 0%nat, args !! 1%nat with
  | Some releaseName, Some statusStr =>
      match ParseStatus statusStr with
      | (_, Some err) =>
          ret (Some (Errorf_w EmptyString err
                       (Fmt.newline +:+ "Valid statuses: " +:+ ValidStatusesString)))
      | (targetStatus, None) =>
          match parse_from fromStatuses [] with
          | inl err => ret (Some err)
          | inr allowedFromStatuses =>
              c <- invoke configFactory ;;
              match c with
              | inl err => ret (Some (Errorf_w "failed to create configuration: " err EmptyString))
              | inr cfg =>
                  r <- SetStatus cfg releaseName targetStatus rev allowedFromStatuses ;;
                  match r with
                  | Some err =>
                      if match As_PreconditionError err with Some _ => true | None => false end
                         && noFail
                      then Fprintf ("Skipped: " +:+ Error err +:+ Fmt.newline) ;;;
                           ret None
                      else ret (Some err)
                  | None =>
                      (if (0 <? rev)%Z
                       then Fprintf ("Release " +:+ Fmt.quote releaseName +:+ " revision " +:+
                                     Fmt.decimal rev +:+ " status set to " +:+
                                     Fmt.quote statusStr +:+ Fmt.newline)
                       else Fprintf ("Release " +:+ Fmt.quote releaseName +:+
                                     " status set to " +:+ Fmt.quote statusStr +:+
                                     Fmt.newline)) ;;;
                      ret None
                  end
              end
          end
      end
  | _, _ => panic
  end.

End Engine.

(** ** What a store shows

    The record a caller sees when asking the store for [name] at
    [version], after following the pointer it is handed. *)

Definition view {D} (S : Storage D) (s : State D) (name : string) (version : Z)
  : option Release :=
  let '(r, s') := Get S name version s in
  match r with
  | inr rel => heap s' !! rel
  | inl _ => None
  end.

(** ** Concrete stores *)

(** helm's driver error [ErrReleaseNotFound]. *)
Definition ErrReleaseNotFound : string := "release: not found".

(** The in-memory driver, the store of every test of the repository: it
    keeps the pointers it was given, under the key made of the release's
    name and revision, and hands the same pointers out again.  helm's
    driver builds its keys as text, name then ".v" then the revision, and
    on a lookup by name and revision refuses a name that itself contains
    ".v" as an invalid key; [Get] below is the lookup for the other
    names. *)
Module Memory.

Definition key_of (r : Release) : string * Z := (Release_Name r, Release_Version r).

(** The newest revision stored under [name], if any. *)
Definition newest (name : string) (m : gmap (string * Z) loc) : option (Z * loc) :=
  map_fold (fun k rel acc =>
              if String.eqb (fst k) name then
                match acc with
                | Some (v, _) => if (v <? snd k)%Z then Some (snd k, rel) else acc
                | None => Some (snd k, rel)
                end
              else acc) None m.

Definition Get (name : string) (version : Z) (s : State (gmap (string * Z) loc))
  : (string + loc) * State (gmap (string * Z) loc) :=
  match driver s !! (name, version) with
  | Some rel => (inr rel, s)
  | None => (inl ErrReleaseNotFound, s)
  end.

Definition Last (name : string) (s : State (gmap (string * Z) loc))
  : (string + loc) * State (gmap (string * Z) loc) :=
  match newest name (driver s) with
  | Some (_, rel) => (inr rel, s)
  | None => (inl ErrReleaseNotFound, s)
  end.

Definition Update (rel : loc) (s : State (gmap (string * Z) loc))
  : option string * State (gmap (string * Z) loc) :=
  match heap s !! rel with
  | Some r =>
      match driver s !! key_of r with
      | Some _ => (None, mkState (heap s) (<[key_of r := rel]> (driver s)))
      | None => (Some ErrReleaseNotFound, s)
      end
  | None => (Some ErrReleaseNotFound, s)
  end.

Definition storage : Storage (gmap (string * Z) loc) := mkStorage Get Last Update.

(** [store.Create(rel)] for a freshly built release. *)
Definition Create (r : Release) (s : State (gmap (string * Z) loc))
  : State (gmap (string * Z) loc) :=
  mkState (heap s ++ [r]) (<[key_of r := length (heap s)]> (driver s)).

Definition empty : State (gmap (string * Z) loc) := mkState [] ∅.

(** Every key leads to an object that carries that key. *)
Definition wf (s : State (gmap (string * Z) loc)) : Prop :=
  forall k rel, driver s !! k = Some rel ->
                exists r, heap s !! rel = Some r /\ key_of r = k.

End Memory.

(** A driver that keeps the records themselves (as helm's cluster-backed
    drivers keep encoded copies): every lookup builds a new object, an
    update copies the object's content into the store. *)
Module Copying.

Definition Get (name : string) (version : Z) (s : State (gmap (string * Z) Release))
  : (string + loc) * State (gmap (string * Z) Release) :=
  match driver s !! (name, version) with
  | Some r => (inr (length (heap s)), mkState (heap s ++ [r]) (driver s))
  | None => (inl ErrReleaseNotFound, s)
  end.

Definition newest (name : string) (m : gmap (string * Z) Release) : option Release :=
  map_fold (fun k r acc =>
              if String.eqb (fst k) name then
                match acc with
                | Some r' => if (Release_Version r' <? snd k)%Z then Some r else acc
                | None => Some r
                end
              else acc) None m.

Definition Last (name : string) (s : State (gmap (string * Z) Release))
  : (string + loc) * State (gmap (string * Z) Release) :=
  match newest name (driver s) with
  | Some r => (inr (length (heap s)), mkState (heap s ++ [r]) (driver s))
  | None => (inl ErrReleaseNotFound, s)
  end.

Definition Update (rel : loc) (s : State (gmap (string * Z) Release))
  : option string * State (gmap (string * Z) Release) :=
  match heap s !! rel with
  | Some r =>
      match driver s !! Memory.key_of r with
      | Some _ => (None, mkState (heap s) (<[Memory.key_of r := r]> (driver s)))
      | None => (Some ErrReleaseNotFound, s)
      end
  | None => (Some ErrReleaseNotFound, s)
  end.

Definition storage : Storage (gmap (string * Z) Release) := mkStorage Get Last Update.

(** Every key leads to a record that carries that key. *)
Definition wf (s : State (gmap (string * Z) Release)) : Prop :=
  forall k r, driver s !! k = Some r -> Memory.key_of r = k.

End Copying.

(** [failingUpdateDriver] of status_test.go: the wrapped store with an
    [Update] that always fails with [driver.ErrReleaseNotFound]. *)
Definition failingUpdateDriver {D} (S : Storage D) : Storage D :=
  mkStorage (Get S) (Last S) (fun _ s => (Some ErrReleaseNotFound, s)).

(** ** Test fixtures *)

(** The release every test builds: chart "test-chart" 1.0.0 in namespace
    "default", with only the status set in [Info]. *)
Definition fixture (name : string) (version : Z) (status : Status) : Release :=
  mkRelease name (mkInfo 0 0 0 EmptyString status EmptyString) ("test-chart", "1.0.0") [] EmptyString []
            version "default" [].

Definition initial_world {D} (s : State D) (now : Time) : World D :=
  mkWorld s now EmptyString [].

(** One revision of "r1" at [deployed]. *)
Definition store_r1 : State (gmap (string * Z) loc) :=
  Memory.Create (fixture "r1" 1 StatusDeployed) Memory.empty.

(** Revisions 1 ([superseded]) and 2 ([deployed]) of "r2". *)
Definition store_r2 : State (gmap (string * Z) loc) :=
  Memory.Create (fixture "r2" 2 StatusDeployed)
    (Memory.Create (fixture "r2" 1 StatusSuperseded) Memory.empty).

Definition memory_cfg : Configuration (gmap (string * Z) loc) :=
  mkConfiguration Memory.storage.

Definition failing_cfg : Configuration (gmap (string * Z) loc) :=
  mkConfiguration (failingUpdateDriver Memory.storage).

(** ** Derived notions used in the statements *)

(** The store operation that [revision] selects, and the call it logs. *)
Definition lookup {D} (cfg : Configuration D) (name : string) (revision : Z) (s : State D)
  : (string + loc) * State D :=
  if (0 <? revision)%Z then Get (Releases cfg) name revision s
  else Last (Releases cfg) name s.

Definition lookup_call (name : string) (revision : Z) : Call :=
  if (0 <? revision)%Z then CallGet name revision else CallLast name.

(** The error a failed lookup is turned into. *)
Definition lookup_error (name : string) (revision : Z) (cause : string) : error :=
  if (0 <? revision)%Z then
    Errorf_w ("failed to get release " +:+ name +:+ " revision " +:+
              Fmt.decimal revision +:+ ": ") (errorString cause) EmptyString
  else ReleaseNotFoundError name.

(** The error a failed update is turned into. *)
Definition update_error (name : string) (cause : string) : error :=
  Errorf_w ("failed to update release " +:+ name +:+ ": ") (errorString cause) EmptyString.

(** The three assignments of lines 82-84, one after the other. *)
Definition mutate (status : Status) (now : Time) (r : Release) : Release :=
  with_LastDeployed now
    (with_Description ("status set to " +:+ Status_String status)
       (with_Status status r)).

Definition is_update (c : Call) : bool :=
  match c with CallUpdate _ => true | _ => false end.

(** What the function returns and the world it leaves, by cases on the
    lookup, on the pointer it returned, on the precondition and on the
    update. *)
Definition SetStatus_flat {D} (cfg : Configuration D) (releaseName : string)
           (status : Status) (revision : Z)
           (allowedFromStatuses : list Status) (w : World D)
  : option (option error * World D) :=
  let '(x, s1) := lookup cfg releaseName revision (state w) in
  let w1 := log (lookup_call releaseName revision) (put_state s1 w) in
  match x with
  | inl cause => Some (Some (lookup_error releaseName revision cause), w1)
  | inr rel =>
      match heap s1 !! rel with
      | None => None
      | Some r =>
          let currentStatus := Info_Status (Release_Info r) in
          if (0 <? length allowedFromStatuses)%nat
             && negb (allowed_loop currentStatus allowedFromStatuses)
          then Some (Some (PreconditionError currentStatus allowedFromStatuses), w1)
          else
            let s2 := mkState (<[rel := mutate status (clock w) r]> (heap s1)) (driver s1) in
            let '(e, s3) := Update (Releases cfg) rel s2 in
            let w3 := log (CallUpdate rel) (put_state s3 w1) in
            Some (match e with
                  | Some cause => Some (update_error releaseName cause)
                  | None => None
                  end, w3)
      end
  end.

(** The closing line of a validation error. *)
Definition hint : string := Fmt.newline +:+ "Valid statuses: " +:+ ValidStatusesString.

(** A successful call changes what the store shows for one key only, the
    key of the record the lookup resolved. *)
Definition isolated_update {D} (S : Storage D) (wf : State D -> Prop) : Prop :=
  forall (name : string) (status : Status) (rev : Z) (allowed : list Status)
         (w w' : World D),
    wf (state w) ->
    SetStatus (mkConfiguration S) name status rev allowed w = Some (None, w') ->
    exists (rel : loc) (r : Release),
      (exists s1, lookup (mkConfiguration S) name rev (state w) = (inr rel, s1) /\
                  heap s1 !! rel = Some r) /\
      (0 < rev -> Release_Name r = name /\ Release_Version r = rev) /\
      calls w' = (calls w ++ [lookup_call name rev; CallUpdate rel])%list /\
      view S (state w') (Release_Name r) (Release_Version r)
      = Some (mutate status (clock w) r) /\
      (forall n v, (n, v) <> (Release_Name r, Release_Version r) ->
                   view S (state w') n v = view S (state w) n v) /\
      wf (state w').

(** ** Fixtures for the scenarios *)

(** The store of [TestSetStatus_UpdateError]. *)
Definition store_test : State (gmap (string * Z) loc) :=
  Memory.Create (fixture "test-release" 1 StatusDeployed) Memory.empty.

(** The same release in a store that keeps copies. *)
Definition copy_store_test : State (gmap (string * Z) Release) :=
  mkState [] {[ ("test-release", 1) := fixture "test-release" 1 StatusDeployed ]}.

Definition world_r1 : World (gmap (string * Z) loc) := initial_world store_r1 42.
Definition world_r2 : World (gmap (string * Z) loc) := initial_world store_r2 42.
Definition world_test : World (gmap (string * Z) loc) := initial_world store_test 42.
Definition world_empty : World (gmap (string * Z) loc) := initial_world Memory.empty 42.
Definition world_copy : World (gmap (string * Z) Release) := initial_world copy_store_test 42.

(** The world a run ends in ([w] if it panicked). *)
Definition after {D A} (run : option (A * World D)) (w : World D) : World D :=
  match run with
  | Some (_, w') => w'
  | None => w
  end.

(** The status a store shows for a revision. *)
Definition shown_status {D} (S : Storage D) (s : State D) (name : string) (version : Z)
  : option Status :=
  match view S s name version with
  | Some r => Some (Info_Status (Release_Info r))
  | None => None
  end.

(** ** The install script (scripts/install.sh)

    The part of the script that decides what to download: the operating
    system and architecture names, the archive extension and the URL.
    [version] is what the script reads from plugin.yaml, [uname_s] and
    [uname_m] are the outputs of [uname -s] and [uname -m]. *)

Module Install.

(** [tr '[:upper:]' '[:lower:]'] on one byte, in the C locale. *)
Definition lower_char (c : ascii) : ascii :=
  let n := N_of_ascii c in
  if ((65 <=? n) && (n <=? 90))%N then ascii_of_N (n + 32) else c.

Fixpoint to_lower (s : string) : string :=
  match s with
  | EmptyString => EmptyString
  | String c s' => String (lower_char c) (to_lower s')
  end.

(** The [case "$ARCH"] statement; [None] is the branch that exits. *)
Definition normalise_arch (ARCH : string) : option string :=
  if String.eqb ARCH "x86_64" then Some "amd64"
  else if String.eqb ARCH "aarch64" || String.eqb ARCH "arm64" then Some "arm64"
  else None.

Definition extension (OS : string) : string :=
  if String.eqb OS "windows" then "zip" else "tar.gz".

Definition download_url (version OS ARCH EXT : string) : string :=
  "https://github.com/josegonzalez/helm-set-status/releases/download/v" +:+ version +:+
  "/helm-set-status_" +:+ version +:+ "_" +:+ OS +:+ "_" +:+ ARCH +:+ "." +:+ EXT.

(** Where the script stands when it starts downloading, or how it left. *)
Inductive Plan : Type :=
| Exit1 (echoed : list string)
| Download (echoed : list string) (DOWNLOAD_URL : string) (EXT : string).

Definition plan (version uname_s uname_m : string) : Plan :=
  let echo1 := "Installing helm-set-status v" +:+ version +:+ "..." in
  let OS := to_lower uname_s in
  match normalise_arch uname_m with
  | None => Exit1 [echo1; "Unsupported architecture: " +:+ uname_m]
  | Some ARCH =>
      let EXT := extension OS in
      let DOWNLOAD_URL := download_url version OS ARCH EXT in
      Download [echo1; "Downloading from: " +:+ DOWNLOAD_URL] DOWNLOAD_URL EXT
  end.

End Install.

(** ** Further notions used in the statements *)

(** What the wrapper does with the outcome of [SetStatus]. *)
Definition is_precondition (e : error) : bool :=
  match As_PreconditionError e with Some _ => true | None => false end.

(** * Properties *)

(** ** The vocabulary *)

Lemma ParseStatus_valid (s : string) :
  In s ValidStatuses -> ParseStatus s = (s, None).
Proof.
  unfold ValidStatuses. simpl.
  intros H. repeat (destruct H as [<- | H]; [reflexivity |]). destruct H.
Qed.

Lemma ParseStatus_invalid (s : string) :
  ~ In s ValidStatuses ->
  ParseStatus s = (StatusUnknown, Some (errorString ("invalid status: " +:+ s))).
Proof.
  intros H. unfold ParseStatus.
  repeat match goal with
         | |- context [String.eqb s ?c] =>
             destruct (String.eqb_spec s c) as [-> | _];
             [exfalso; apply H; unfold ValidStatuses; simpl; tauto |]
         end.
  reflexivity.
Qed.

Lemma ParseStatus_ok_inv (s : string) (st : Status) :
  ParseStatus s = (st, None) -> In s ValidStatuses /\ st = s.
Proof.
  intros H. destruct (in_dec string_dec s ValidStatuses) as [Hin | Hnin].
  - rewrite (ParseStatus_valid s Hin) in H. split; [assumption | congruence].
  - rewrite (ParseStatus_invalid s Hnin) in H. discriminate.
Qed.

Lemma ValidStatusesString_eq :
  ValidStatusesString =
  "unknown, deployed, superseded, failed, uninstalling, pending-install, pending-upgrade, pending-rollback".
Proof. reflexivity. Qed.

(** C6: parsing one of the eight canonical strings succeeds and rendering
    the result gives the string back; parsing any other string (the empty
    string, a case variant, a padded variant) fails with the invalid-status
    error that names the input as it was given. *)
Theorem ParseStatus_canonical_roundtrip (s : string) :
  (In s ValidStatuses ->
   exists st, ParseStatus s = (st, None) /\ Status_String st = s) /\
  (~ In s ValidStatuses ->
   exists st, ParseStatus s = (st, Some (errorString ("invalid status: " +:+ s)))) /\
  length ValidStatuses = 8%nat /\ NoDup ValidStatuses /\
  ~ In EmptyString ValidStatuses /\ ~ In "Deployed" ValidStatuses /\
  ~ In "DEPLOYED" ValidStatuses /\ ~ In " deployed" ValidStatuses /\
  ~ In "deployed " ValidStatuses /\ ~ In "pending_install" ValidStatuses.
Proof.
  split; [| split].
  - intros H. exists s. split; [apply ParseStatus_valid; exact H | reflexivity].
  - intros H. exists StatusUnknown. apply ParseStatus_invalid; exact H.
  - split; [reflexivity |]. split.
    + apply NoDup_ListNoDup. unfold ValidStatuses.
      repeat (constructor; [simpl; intuition discriminate |]). constructor.
    + unfold ValidStatuses; simpl; repeat split; intuition discriminate.
Qed.

Lemma ParseStatus_canonical_roundtrip_witness :
  (exists st, ParseStatus "pending-upgrade" = (st, None) /\
              Status_String st = "pending-upgrade") /\
  (exists st, ParseStatus " deployed" =
              (st, Some (errorString "invalid status:  deployed"))).
Proof.
  split.
  - apply (proj1 (ParseStatus_canonical_roundtrip "pending-upgrade")).
    unfold ValidStatuses; simpl; tauto.
  - apply (proj1 (proj2 (ParseStatus_canonical_roundtrip " deployed"))).
    unfold ValidStatuses; simpl; intuition discriminate.
Defined.

(** C10: on a string outside the canonical set the [Status] component of
    [ParseStatus]' result is [StatusUnknown], next to the error. *)
Theorem ParseStatus_invalid_returns_unknown (s : string) :
  ~ In s ValidStatuses ->
  fst (ParseStatus s) = StatusUnknown /\
  Status_String (fst (ParseStatus s)) = "unknown" /\
  snd (ParseStatus s) = Some (errorString ("invalid status: " +:+ s)).
Proof.
  intros H. rewrite (ParseStatus_invalid s H). repeat split.
Qed.

Lemma ParseStatus_invalid_returns_unknown_witness :
  fst (ParseStatus "invalid") = StatusUnknown /\
  Status_String (fst (ParseStatus "invalid")) = "unknown" /\
  snd (ParseStatus "invalid") = Some (errorString "invalid status: invalid").
Proof.
  apply (ParseStatus_invalid_returns_unknown "invalid").
  unfold ValidStatuses; simpl; intuition discriminate.
Defined.

(** ** The engine, flattened

    One equation that follows [SetStatus] through all of its exits. *)

Section EngineFacts.
Context {D : Type}.
Implicit Types (cfg : Configuration D) (w : World D) (s : State D).

Lemma allowed_loop_In (cur : Status) (allowed : list Status) :
  allowed_loop cur allowed = true <-> In cur allowed.
Proof.
  induction allowed as [| a l IH]; simpl.
  - split; [discriminate | tauto].
  - destruct (String.eqb_spec cur a) as [-> | Hne].
    + split; auto.
    + rewrite IH. split; [auto | intros [Heq | Hin]; [congruence | assumption]].
Qed.

Lemma SetStatus_unfold cfg releaseName status revision allowedFromStatuses w :
  SetStatus cfg releaseName status revision allowedFromStatuses w
  = SetStatus_flat cfg releaseName status revision allowedFromStatuses w.
Proof.
  unfold SetStatus, SetStatus_flat, resolve, lookup, lookup_call, lookup_error,
    update_error, bind, ret, Releases_Get, Releases_Last.
  destruct (0 <? revision)%Z.
  - destruct (Get (Releases cfg) releaseName revision (state w)) as [[cause | rel] s1];
      simpl; [reflexivity |].
    unfold precondition, bind, ret, deref; simpl.
    destruct (heap s1 !! rel) as [r |] eqn:Hrel.
    + destruct (0 <? length allowedFromStatuses)%nat; simpl.
      * rewrite Hrel.
        destruct (allowed_loop (Info_Status (Release_Info r)) allowedFromStatuses);
          simpl; [| reflexivity].
        unfold assign, helmtime_Now, Releases_Update; simpl. rewrite Hrel; simpl.
        assert (Hlt : (rel < length (heap s1))%nat) by (eapply lookup_lt_Some; eauto).
        rewrite list_lookup_insert_eq by assumption. simpl.
        rewrite list_lookup_insert_eq by (rewrite length_insert; assumption). simpl.
        rewrite !list_insert_insert_eq.
        fold (mutate status (clock w) r).
        destruct (Update (Releases cfg) rel _) as [[cause |] s3]; reflexivity.
      * unfold assign, helmtime_Now, Releases_Update; simpl. rewrite Hrel; simpl.
        assert (Hlt : (rel < length (heap s1))%nat) by (eapply lookup_lt_Some; eauto).
        rewrite list_lookup_insert_eq by assumption. simpl.
        rewrite list_lookup_insert_eq by (rewrite length_insert; assumption). simpl.
        rewrite !list_insert_insert_eq.
        fold (mutate status (clock w) r).
        destruct (Update (Releases cfg) rel _) as [[cause |] s3]; reflexivity.
    + destruct (0 <? length allowedFromStatuses)%nat; simpl.
      * rewrite Hrel. reflexivity.
      * unfold assign; simpl. rewrite Hrel. reflexivity.
  - destruct (Last (Releases cfg) releaseName (state w)) as [[cause | rel] s1];
      simpl; [reflexivity |].
    unfold precondition, bind, ret, deref; simpl.
    destruct (heap s1 !! rel) as [r |] eqn:Hrel.
    + destruct (0 <? length allowedFromStatuses)%nat; simpl.
      * rewrite Hrel.
        destruct (allowed_loop (Info_Status (Release_Info r)) allowedFromStatuses);
          simpl; [| reflexivity].
        unfold assign, helmtime_Now, Releases_Update; simpl. rewrite Hrel; simpl.
        assert (Hlt : (rel < length (heap s1))%nat) by (eapply lookup_lt_Some; eauto).
        rewrite list_lookup_insert_eq by assumption. simpl.
        rewrite list_lookup_insert_eq by (rewrite length_insert; assumption). simpl.
        rewrite !list_insert_insert_eq.
        fold (mutate status (clock w) r).
        destruct (Update (Releases cfg) rel _) as [[cause |] s3]; reflexivity.
      * unfold assign, helmtime_Now, Releases_Update; simpl. rewrite Hrel; simpl.
        assert (Hlt : (rel < length (heap s1))%nat) by (eapply lookup_lt_Some; eauto).
        rewrite list_lookup_insert_eq by assumption. simpl.
        rewrite list_lookup_insert_eq by (rewrite length_insert; assumption). simpl.
        rewrite !list_insert_insert_eq.
        fold (mutate status (clock w) r).
        destruct (Update (Releases cfg) rel _) as [[cause |] s3]; reflexivity.
    + destruct (0 <? length allowedFromStatuses)%nat; simpl.
      * rewrite Hrel. reflexivity.
      * unfold assign; simpl. rewrite Hrel. reflexivity.
Qed.

End EngineFacts.

(** ** Texts *)

Lemma str_app_cons (c : ascii) (a b : string) :
  String c a +:+ b = String c (a +:+ b).
Proof. reflexivity. Qed.

Lemma str_app_assoc (a b c : string) : (a +:+ b) +:+ c = a +:+ (b +:+ c).
Proof.
  induction a as [| x a IH]; [reflexivity |].
  rewrite !str_app_cons, IH. reflexivity.
Qed.

Lemma str_app_nil_r (a : string) : a +:+ EmptyString = a.
Proof.
  induction a as [| x a IH]; [reflexivity |].
  rewrite str_app_cons, IH. reflexivity.
Qed.

Lemma Contains_refl (s : string) : Fmt.Contains s s.
Proof. exists EmptyString, EmptyString. rewrite str_app_nil_r. reflexivity. Qed.

Lemma Contains_app_l (a b s : string) : Fmt.Contains a s -> Fmt.Contains (a +:+ b) s.
Proof.
  intros (pre & post & ->). exists pre, (post +:+ b).
  rewrite !str_app_assoc. reflexivity.
Qed.

Lemma Contains_app_r (a b s : string) : Fmt.Contains b s -> Fmt.Contains (a +:+ b) s.
Proof.
  intros (pre & post & ->). exists (a +:+ pre), post.
  rewrite !str_app_assoc. reflexivity.
Qed.

Create HintDb contains.
#[export] Hint Resolve Contains_refl : contains.
#[export] Hint Resolve Contains_app_l Contains_app_r | 2 : contains.

Lemma quote_body_plain (s : string) : Fmt.plain s = true -> Fmt.quote_body s = s.
Proof.
  induction s as [| c s IH]; simpl; [reflexivity |].
  intros H. apply andb_prop in H as [Hc Hs]. rewrite (IH Hs).
  unfold Fmt.plain_char in Hc. unfold Fmt.quote_char.
  apply andb_prop in Hc as [Hc H92]. apply andb_prop in Hc as [Hc H34].
  apply andb_prop in Hc as [Hlo Hhi].
  apply N.leb_le in Hlo. apply N.ltb_lt in Hhi.
  apply negb_true_iff, N.eqb_neq in H92. apply negb_true_iff, N.eqb_neq in H34.
  repeat match goal with
         | |- context [(N_of_ascii c =? ?k)%N] =>
             destruct (N.eqb_spec (N_of_ascii c) k) as [E | _]; [exfalso; lia |]
         end.
  destruct (N.ltb_spec (N_of_ascii c) 32) as [E | _]; [exfalso; lia |].
  reflexivity.
Qed.

Lemma plain_is_ascii (s : string) : Fmt.plain s = true -> Fmt.is_ascii s = true.
Proof.
  induction s as [| c s IH]; simpl; [reflexivity |].
  intros H. apply andb_prop in H as [Hc Hs]. rewrite (IH Hs), andb_true_r.
  unfold Fmt.plain_char in Hc. unfold Fmt.is_ascii_char.
  apply andb_prop in Hc as [Hc _]. apply andb_prop in Hc as [Hc _].
  apply andb_prop in Hc as [_ Hhi]. apply N.ltb_lt in Hhi. apply N.ltb_lt. lia.
Qed.

Lemma quote_Contains_plain (s : string) :
  Fmt.plain s = true -> Fmt.Contains (Fmt.quote s) s.
Proof.
  intros H. unfold Fmt.quote. rewrite (quote_body_plain s H).
  auto with contains.
Qed.

Lemma join_Contains (sep s : string) (l : list string) :
  In s l -> Fmt.Contains (Fmt.join sep l) s.
Proof.
  induction l as [| a l IH]; [intros [] |].
  intros [-> | Hin].
  - destruct l; simpl; auto with contains.
  - specialize (IH Hin). destruct l as [| b l]; [destruct Hin |].
    change (Fmt.join sep (a :: b :: l)) with (a +:+ sep +:+ Fmt.join sep (b :: l)).
    auto with contains.
Qed.

Lemma slice_Contains (s : string) (l : list string) :
  In s l -> Fmt.Contains (Fmt.slice l) s.
Proof.
  intros H. unfold Fmt.slice.
  apply Contains_app_r, Contains_app_l, join_Contains, H.
Qed.

(** ** The transition engine *)

Section EngineProperties.
Context {D : Type}.
Implicit Types (cfg : Configuration D) (w : World D) (s : State D).

Lemma lookup_error_not_precondition (name : string) (revision : Z) (cause : string) :
  As_PreconditionError (lookup_error name revision cause) = None.
Proof. unfold lookup_error. destruct (0 <? revision)%Z; reflexivity. Qed.

Lemma update_error_eq (name cause : string) :
  update_error name cause =
  wrapError ("failed to update release " +:+ name +:+ ": " +:+ cause) (errorString cause).
Proof.
  unfold update_error, Errorf_w. simpl Error.
  rewrite str_app_nil_r, !str_app_assoc. reflexivity.
Qed.

Lemma lookup_call_not_update (name : string) (revision : Z) :
  is_update (lookup_call name revision) = false.
Proof. unfold lookup_call. destruct (0 <? revision)%Z; reflexivity. Qed.

Lemma nonempty_length {A} (l : list A) : (0 <? length l)%nat = true <-> l <> [].
Proof.
  destruct l; simpl; split; try congruence; try discriminate; reflexivity.
Qed.

(** C1: once the record is resolved, [SetStatus] fails with a
    [PreconditionError] exactly when the allowed list is non-empty and the
    current status is not a member of it; with an empty list it never
    does; and on that failure the world is the one the lookup left, with
    no [Update] call made. *)
Theorem SetStatus_precondition cfg (releaseName : string) (status : Status)
        (revision : Z) (allowedFromStatuses : list Status) w
        (rel : loc) (s1 : State D) (r : Release) :
  lookup cfg releaseName revision (state w) = (inr rel, s1) ->
  heap s1 !! rel = Some r ->
  exists res w2,
    SetStatus cfg releaseName status revision allowedFromStatuses w = Some (res, w2) /\
    ((exists e p, res = Some e /\ As_PreconditionError e = Some p) <->
     (allowedFromStatuses <> [] /\
      ~ In (Info_Status (Release_Info r)) allowedFromStatuses)) /\
    (allowedFromStatuses = [] ->
     forall e p, res = Some e -> As_PreconditionError e <> Some p) /\
    ((exists e p, res = Some e /\ As_PreconditionError e = Some p) ->
     res = Some (PreconditionError (Info_Status (Release_Info r)) allowedFromStatuses) /\
     state w2 = s1 /\ heap (state w2) !! rel = Some r /\
     calls w2 = (calls w ++ [lookup_call releaseName revision])%list /\
     is_update (lookup_call releaseName revision) = false /\
     clock w2 = clock w /\ stdout w2 = stdout w).
Proof.
  intros Hlook Hrel.
  rewrite SetStatus_unfold. unfold SetStatus_flat. rewrite Hlook, Hrel.
  set (cur := Info_Status (Release_Info r)).
  assert (Hpass : forall res : option error,
             (res = None \/ exists c, res = Some (update_error releaseName c)) ->
             ~ exists e p, res = Some e /\ As_PreconditionError e = Some p).
  { intros res [-> | [c ->]] (e & p & He & Hp); [discriminate |].
    inversion He; subst. discriminate. }
  destruct (0 <? length allowedFromStatuses)%nat eqn:Hlen; simpl.
  - apply nonempty_length in Hlen.
    destruct (allowed_loop cur allowedFromStatuses) eqn:Hal; simpl.
    + apply allowed_loop_In in Hal.
      destruct (Update (Releases cfg) rel _) as [e s3].
      eexists _, _. split; [reflexivity |].
      assert (Hno : ~ exists e0 p, match e with
                                   | Some c => Some (update_error releaseName c)
                                   | None => None
                                   end = Some e0 /\ As_PreconditionError e0 = Some p).
      { apply Hpass. destruct e; eauto. }
      split; [| split].
      * split; [intros H; contradiction | intros [_ Hn]; contradiction].
      * intros Hnil; contradiction.
      * intros H; contradiction.
    + assert (Hn : ~ In cur allowedFromStatuses).
      { intros Hin. apply allowed_loop_In in Hin. congruence. }
      eexists _, _. split; [reflexivity |].
      split; [| split].
      * split; [intros _; split; assumption |].
        intros _. eexists _, _. split; reflexivity.
      * intros Hnil; contradiction.
      * intros _. repeat split; auto. apply lookup_call_not_update.
  - assert (Hnil : allowedFromStatuses = []).
    { destruct allowedFromStatuses; [reflexivity | discriminate]. }
    destruct (Update (Releases cfg) rel _) as [e s3].
    eexists _, _. split; [reflexivity |].
    assert (Hno : ~ exists e0 p, match e with
                                 | Some c => Some (update_error releaseName c)
                                 | None => None
                                 end = Some e0 /\ As_PreconditionError e0 = Some p).
    { apply Hpass. destruct e; eauto. }
    split; [| split].
    * split; [intros H; contradiction | intros [Hne _]; contradiction].
    * intros _ e0 p He Hp. apply Hno. eauto.
    * intros H; contradiction.
Qed.

(** C3: a failed latest-lookup (selector 0) gives [ReleaseNotFoundError]
    with the release name; a failed lookup of an explicit revision gives
    a different error, which is not a [ReleaseNotFoundError], whose text
    names the release and the revision, and which wraps the store's own
    failure. *)
Theorem SetStatus_lookup_failure cfg (releaseName : string) (status : Status)
        (revision : Z) (allowedFromStatuses : list Status) w
        (cause : string) (s1 : State D) :
  (revision = 0 ->
   Last (Releases cfg) releaseName (state w) = (inl cause, s1) ->
   SetStatus cfg releaseName status revision allowedFromStatuses w
   = Some (Some (ReleaseNotFoundError releaseName),
           log (CallLast releaseName) (put_state s1 w))) /\
  (0 < revision ->
   Get (Releases cfg) releaseName revision (state w) = (inl cause, s1) ->
   exists e,
     SetStatus cfg releaseName status revision allowedFromStatuses w
     = Some (Some e, log (CallGet releaseName revision) (put_state s1 w)) /\
     e = wrapError ("failed to get release " +:+ releaseName +:+ " revision " +:+
                    Fmt.decimal revision +:+ ": " +:+ cause) (errorString cause) /\
     As_ReleaseNotFoundError e = None /\
     e <> ReleaseNotFoundError releaseName /\
     Fmt.Contains (Error e) releaseName /\
     Fmt.Contains (Error e) (Fmt.decimal revision) /\
     Fmt.Contains (Error e) cause).
Proof.
  split.
  - intros -> HLast. rewrite SetStatus_unfold. unfold SetStatus_flat, lookup.
    simpl. rewrite HLast. reflexivity.
  - intros Hpos HGet. rewrite SetStatus_unfold. unfold SetStatus_flat, lookup, lookup_call,
      lookup_error.
    apply Z.ltb_lt in Hpos. rewrite Hpos, HGet.
    eexists. split; [reflexivity |].
    unfold Errorf_w. simpl Error. rewrite str_app_nil_r, !str_app_assoc.
    repeat split; try discriminate; auto 10 with contains.
Qed.

(** C4: what a successful call leaves in the resolved record: the new
    status, the description "status set to <status>", the current time as
    last-transition time, and every other field as it was.  This record is
    the one handed to the store's update. *)
Theorem SetStatus_success_frame cfg (releaseName : string) (status : Status)
        (revision : Z) (allowedFromStatuses : list Status) w w' :
  SetStatus cfg releaseName status revision allowedFromStatuses w = Some (None, w') ->
  exists (rel : loc) (s1 : State D) (r r' : Release),
    lookup cfg releaseName revision (state w) = (inr rel, s1) /\
    heap s1 !! rel = Some r /\
    r' = mkRelease (Release_Name r)
           (mkInfo (Info_FirstDeployed (Release_Info r)) (clock w)
                   (Info_Deleted (Release_Info r))
                   ("status set to " +:+ Status_String status) status
                   (Info_Notes (Release_Info r)))
           (Release_Chart r) (Release_Config r) (Release_Manifest r)
           (Release_Hooks r) (Release_Version r) (Release_Namespace r)
           (Release_Labels r) /\
    let s2 := mkState (<[rel := r']> (heap s1)) (driver s1) in
    heap s2 !! rel = Some r' /\
    (forall l : loc, l <> rel -> heap s2 !! l = heap s1 !! l) /\
    Update (Releases cfg) rel s2 = (None, state w') /\
    calls w' = (calls w ++ [lookup_call releaseName revision; CallUpdate rel])%list.
Proof.
  rewrite SetStatus_unfold. unfold SetStatus_flat.
  destruct (lookup cfg releaseName revision (state w)) as [[cause | rel] s1] eqn:Hlook;
    [discriminate |].
  destruct (heap s1 !! rel) as [r |] eqn:Hrel; [| discriminate].
  destruct (_ && _); [discriminate |].
  destruct (Update (Releases cfg) rel _) as [[cause |] s3] eqn:Hup; [discriminate |].
  intros [= <-].
  exists rel, s1, r, (mutate status (clock w) r).
  split; [reflexivity |]. split; [assumption |]. split; [reflexivity |].
  cbv zeta. split; [| split; [| split]].
  - simpl. apply list_lookup_insert_eq. eapply lookup_lt_Some; eauto.
  - intros l Hl. simpl. apply list_lookup_insert_ne. congruence.
  - exact Hup.
  - simpl. rewrite <- app_assoc. reflexivity.
Qed.

End EngineProperties.

(** ** The command wrapper *)

Section WrapperProperties.
Context {D : Type}.
Implicit Types (cfg : Configuration D) (w : World D).

Lemma ValidStatusesString_join : ValidStatusesString = Fmt.join ", " ValidStatuses.
Proof. reflexivity. Qed.

Lemma hint_lists_all (pre : string) :
  Forall (Fmt.Contains (pre +:+ hint)) ValidStatuses.
Proof.
  apply Forall_forall. intros s Hs. apply list_elem_of_In in Hs.
  unfold hint. rewrite ValidStatusesString_join.
  do 3 apply Contains_app_r. apply join_Contains, Hs.
Qed.

Lemma parse_from_valid (fromStatuses : list string) (acc : list Status) :
  List.Forall (fun s => In s ValidStatuses) fromStatuses ->
  parse_from fromStatuses acc = inr (acc ++ fromStatuses)%list.
Proof.
  revert acc. induction fromStatuses as [| s l IH]; intros acc H; simpl.
  - rewrite app_nil_r. reflexivity.
  - inversion H as [| ? ? Hs Hl]; subst.
    rewrite (ParseStatus_valid s Hs), (IH _ Hl), <- app_assoc. reflexivity.
Qed.

Lemma parse_from_invalid (fromStatuses : list string) (acc : list Status) :
  List.Exists (fun s => ~ In s ValidStatuses) fromStatuses ->
  exists s, In s fromStatuses /\ ~ In s ValidStatuses /\
    parse_from fromStatuses acc =
    inl (wrapError ("invalid --from status " +:+ Fmt.quote s +:+ ": " +:+
                    "invalid status: " +:+ s +:+ hint)
                   (errorString ("invalid status: " +:+ s))).
Proof.
  revert acc. induction fromStatuses as [| a l IH]; intros acc H.
  - inversion H.
  - destruct (in_dec string_dec a ValidStatuses) as [Ha | Ha].
    + inversion H as [? ? Hbad | ? ? Hl]; subst; [contradiction |].
      destruct (IH (acc ++ [a])%list Hl) as (s & Hin & Hbad & Heq).
      exists s. split; [right; assumption |]. split; [assumption |].
      simpl. rewrite (ParseStatus_valid a Ha). exact Heq.
    + exists a. split; [left; reflexivity |]. split; [assumption |].
      simpl. rewrite (ParseStatus_invalid a Ha). unfold Errorf_w. simpl Error.
      rewrite !str_app_assoc. reflexivity.
Qed.

Lemma parse_from_inr (fromStatuses : list string) (acc l : list Status) :
  parse_from fromStatuses acc = inr l ->
  l = (acc ++ fromStatuses)%list /\ List.Forall (fun s => In s ValidStatuses) fromStatuses.
Proof.
  intros H.
  destruct (List.Forall_Exists_dec (fun s => In s ValidStatuses)
              (fun s => in_dec string_dec s ValidStatuses) fromStatuses) as [Hall | Hex].
  - rewrite (parse_from_valid _ _ Hall) in H. split; [congruence | assumption].
  - destruct (parse_from_invalid _ acc Hex) as (s & _ & _ & Heq). congruence.
Qed.

(** C7: with a target status or a [--from] entry outside the canonical
    set, the wrapper returns an error whose text ends with the list of all
    valid statuses, and the world is exactly as it was: the configuration
    factory has not been invoked and the store has not been called. *)
Theorem runWithConfigFactory_rejects_invalid_status
        (releaseName statusStr : string) (rest : list string) (rev : Z)
        (fromStatuses : list string) (noFail : bool)
        (configFactory : unit -> error + Configuration D) w :
  ~ In statusStr ValidStatuses \/
  List.Exists (fun s => ~ In s ValidStatuses) fromStatuses ->
  exists e,
    runWithConfigFactory (releaseName :: statusStr :: rest) rev fromStatuses noFail
                         configFactory w = Some (Some e, w) /\
    (exists pre, Error e = pre +:+ hint) /\
    Forall (Fmt.Contains (Error e)) ValidStatuses /\
    Fmt.Contains (Error e) "invalid status: " /\
    hint = Fmt.newline +:+
           "Valid statuses: unknown, deployed, superseded, failed, uninstalling, pending-install, pending-upgrade, pending-rollback".
Proof.
  intros H. unfold runWithConfigFactory. simpl.
  destruct (in_dec string_dec statusStr ValidStatuses) as [Hs | Hs].
  - destruct H as [H | H]; [contradiction |].
    rewrite (ParseStatus_valid _ Hs).
    destruct (parse_from_invalid _ [] H) as (s & _ & _ & ->).
    eexists. split; [reflexivity |]. simpl Error.
    split; [| split; [| split]].
    + exists ("invalid --from status " +:+ Fmt.quote s +:+ ": " +:+ "invalid status: " +:+ s).
      rewrite !str_app_assoc. reflexivity.
    + replace ("invalid --from status " +:+ Fmt.quote s +:+ ": " +:+
               "invalid status: " +:+ s +:+ hint)
        with (("invalid --from status " +:+ Fmt.quote s +:+ ": " +:+
               "invalid status: " +:+ s) +:+ hint)
        by (rewrite !str_app_assoc; reflexivity).
      apply hint_lists_all.
    + auto 10 with contains.
    + reflexivity.
  - rewrite (ParseStatus_invalid _ Hs). unfold Errorf_w. simpl Error.
    eexists. split; [reflexivity |]. simpl Error.
    split; [| split; [| split]].
    + exists ("invalid status: " +:+ statusStr). reflexivity.
    + change (EmptyString +:+ ("invalid status: " +:+ statusStr) +:+ hint)
        with (("invalid status: " +:+ statusStr) +:+ hint).
      apply hint_lists_all.
    + change (EmptyString +:+ ("invalid status: " +:+ statusStr) +:+ hint)
        with (("invalid status: " +:+ statusStr) +:+ hint).
      auto 10 with contains.
    + reflexivity.
Qed.

Lemma SetStatus_errors cfg (releaseName : string) (status : Status) (revision : Z)
      (allowedFromStatuses : list Status) w (err : error) w2 :
  SetStatus cfg releaseName status revision allowedFromStatuses w = Some (Some err, w2) ->
  (exists cause, err = lookup_error releaseName revision cause) \/
  (exists cur, err = PreconditionError cur allowedFromStatuses) \/
  (exists cause, err = update_error releaseName cause).
Proof.
  rewrite SetStatus_unfold. unfold SetStatus_flat.
  destruct (lookup cfg releaseName revision (state w)) as [[cause | rel] s1].
  - intros [= <- _]. left. eauto.
  - destruct (heap s1 !! rel) as [r |]; [| discriminate].
    destruct (_ && _).
    + intros [= <- _]. right; left. eauto.
    + destruct (Update (Releases cfg) rel _) as [[cause |] s3]; [| discriminate].
      intros [= <- _]. right; right. eauto.
Qed.

(** C2: when [SetStatus] fails, the wrapper returns success exactly when
    the error is a [PreconditionError] and [noFail] is set; it then prints
    "Skipped: " and the error text, which holds the allowed list and the
    current status (verbatim when the status is printable ASCII without
    quote or backslash, as every helm status is; the whole line is spelled
    out for an ASCII status), and changes nothing else.  In every other
    case the error of [SetStatus] is returned as it is and nothing is
    printed. *)
Theorem runWithConfigFactory_skip_policy
        (releaseName statusStr : string) (rest : list string) (rev : Z)
        (fromStatuses : list string) (noFail : bool)
        (configFactory : unit -> error + Configuration D) w
        (targetStatus : Status) (allowedFromStatuses : list Status)
        cfg (err : error) w2 :
  ParseStatus statusStr = (targetStatus, None) ->
  parse_from fromStatuses [] = inr allowedFromStatuses ->
  configFactory tt = inr cfg ->
  SetStatus cfg releaseName targetStatus rev allowedFromStatuses (log CallConfigFactory w)
  = Some (Some err, w2) ->
  exists res w3,
    runWithConfigFactory (releaseName :: statusStr :: rest) rev fromStatuses noFail
                         configFactory w = Some (res, w3) /\
    (res = None <->
     (exists cur allowed, err = PreconditionError cur allowed) /\ noFail = true) /\
    (res = None ->
     exists cur,
       err = PreconditionError cur allowedFromStatuses /\
       let text := "Skipped: " +:+ Error err +:+ Fmt.newline in
       w3 = mkWorld (state w2) (clock w2) (stdout w2 +:+ text) (calls w2) /\
       Fmt.Contains text "Skipped: current status " /\
       (Fmt.is_ascii cur = true ->
        text = "Skipped: current status " +:+ Fmt.quote cur +:+
               " is not in allowed list: " +:+ Fmt.slice allowedFromStatuses +:+
               Fmt.newline) /\
       (Fmt.plain cur = true -> Fmt.Contains text cur) /\
       Fmt.Contains text (Fmt.slice allowedFromStatuses) /\
       (forall s, In s allowedFromStatuses -> Fmt.Contains text s)) /\
    (res <> None -> res = Some err /\ w3 = w2).
Proof.
  intros HP HF HC HS.
  unfold runWithConfigFactory. simpl. rewrite HP, HF.
  unfold bind, invoke. rewrite HC, HS.
  destruct (SetStatus_errors _ _ _ _ _ _ _ _ HS) as [[c ->] | [[cur ->] | [c ->]]].
  - rewrite lookup_error_not_precondition. simpl.
    eexists _, _. split; [reflexivity |]. split; [| split].
    + split; [discriminate |]. intros [(cur & al & Heq) _]. exfalso.
      pose proof (lookup_error_not_precondition releaseName rev c) as Hn.
      rewrite Heq in Hn. discriminate.
    + discriminate.
    + intros _. split; reflexivity.
  - simpl. destruct noFail; simpl.
    + eexists _, _. split; [reflexivity |]. split; [| split].
      * split; [intros _; split; eauto | reflexivity].
      * intros _. exists cur. split; [reflexivity |]. cbv zeta.
        simpl Error. unfold statusListToStrings, Status_String. rewrite map_id.
        split; [reflexivity |].
        split; [| split; [| split; [| split]]].
        -- exists EmptyString,
             (Fmt.quote cur +:+ " is not in allowed list: " +:+
              Fmt.slice allowedFromStatuses +:+ Fmt.newline).
           rewrite !str_app_assoc. reflexivity.
        -- intros _. rewrite !str_app_assoc. reflexivity.
        -- intros Hpl. apply Contains_app_r, Contains_app_l, Contains_app_r, Contains_app_l.
           apply quote_Contains_plain, Hpl.
        -- apply Contains_app_r, Contains_app_l. do 3 apply Contains_app_r.
           apply Contains_refl.
        -- intros s Hs. apply Contains_app_r, Contains_app_l. do 3 apply Contains_app_r.
           apply slice_Contains, Hs.
      * intros Hn. contradiction.
    + eexists _, _. split; [reflexivity |]. split; [| split].
      * split; [discriminate | intros [_ ?]; discriminate].
      * discriminate.
      * intros _. split; reflexivity.
  - simpl. eexists _, _. split; [reflexivity |]. split; [| split].
    + split; [discriminate |]. intros [(cur & al & Heq) _]. discriminate.
    + discriminate.
    + intros _. split; reflexivity.
Qed.

End WrapperProperties.

(** ** The engine on the concrete stores *)

Lemma SetStatus_success_inv {D} (cfg : Configuration D) (releaseName : string)
      (status : Status) (revision : Z) (allowedFromStatuses : list Status)
      (w w' : World D) :
  SetStatus cfg releaseName status revision allowedFromStatuses w = Some (None, w') ->
  exists (rel : loc) (s1 : State D) (r : Release),
    lookup cfg releaseName revision (state w) = (inr rel, s1) /\
    heap s1 !! rel = Some r /\
    Update (Releases cfg) rel
           (mkState (<[rel := mutate status (clock w) r]> (heap s1)) (driver s1))
    = (None, state w') /\
    calls w' = (calls w ++ [lookup_call releaseName revision; CallUpdate rel])%list.
Proof.
  rewrite SetStatus_unfold. unfold SetStatus_flat.
  destruct (lookup cfg releaseName revision (state w)) as [[cause | rel] s1] eqn:Hlook;
    [discriminate |].
  destruct (heap s1 !! rel) as [r |] eqn:Hrel; [| discriminate].
  destruct (_ && _); [discriminate |].
  destruct (Update (Releases cfg) rel _) as [[cause |] s3] eqn:Hup; [discriminate |].
  intros [= <-]. exists rel, s1, r. repeat split; try assumption.
  simpl. rewrite <- app_assoc. reflexivity.
Qed.

Lemma key_of_mutate (status : Status) (now : Time) (r : Release) :
  Memory.key_of (mutate status now r) = Memory.key_of r.
Proof. reflexivity. Qed.

Lemma Memory_newest_lookup (name : string) (m : gmap (string * Z) loc) (v : Z) (rel : loc) :
  Memory.newest name m = Some (v, rel) -> m !! (name, v) = Some rel.
Proof.
  unfold Memory.newest. revert v rel.
  apply (map_fold_weak_ind
           (fun acc (m : gmap (string * Z) loc) =>
              forall v rel, acc = Some (v, rel) -> m !! (name, v) = Some rel)).
  - discriminate.
  - intros [n k] x m' acc Hfresh IH v rel. simpl.
    assert (Hkeep : acc = Some (v, rel) -> <[(n, k) := x]> m' !! (name, v) = Some rel).
    { intros Hacc. specialize (IH _ _ Hacc).
      rewrite lookup_insert_ne; [assumption |]. intros Heq. rewrite Heq in Hfresh.
      congruence. }
    destruct (String.eqb_spec n name) as [-> | Hne]; [| exact Hkeep].
    destruct acc as [[v0 rel0] |].
    + destruct (v0 <? k)%Z; [| exact Hkeep].
      intros [= <- <-]. apply lookup_insert_eq.
    + intros [= <- <-]. apply lookup_insert_eq.
Qed.

Lemma Memory_view_eq (s : State (gmap (string * Z) loc)) (n : string) (v : Z) :
  view Memory.storage s n v =
  match driver s !! (n, v) with
  | Some rel => heap s !! rel
  | None => None
  end.
Proof.
  unfold view, Memory.storage, Memory.Get; simpl. destruct (driver s !! (n, v)); reflexivity.
Qed.

Lemma Memory_lookup_inv (name : string) (rev : Z) (s s1 : State (gmap (string * Z) loc))
      (rel : loc) :
  lookup (mkConfiguration Memory.storage) name rev s = (inr rel, s1) ->
  s1 = s /\ exists v, driver s !! (name, v) = Some rel /\ (0 < rev -> v = rev).
Proof.
  unfold lookup; simpl. destruct (0 <? rev)%Z eqn:Hrev.
  - unfold Memory.Get. destruct (driver s !! (name, rev)) as [l |] eqn:Hl; [| discriminate].
    intros [= <- <-]. split; [reflexivity |]. exists rev. auto.
  - unfold Memory.Last. destruct (Memory.newest name (driver s)) as [[v l] |] eqn:Hn; [| discriminate].
    intros [= <- <-]. split; [reflexivity |]. exists v.
    split; [apply Memory_newest_lookup; assumption |].
    intros Hpos. apply Z.ltb_lt in Hpos. congruence.
Qed.

Lemma Memory_isolated : isolated_update Memory.storage Memory.wf.
Proof.
  intros name status rev allowed w w' Hwf Hok.
  destruct (SetStatus_success_inv _ _ _ _ _ _ _ Hok) as (rel & s1 & r & Hlook & Hrel & Hup & Hcalls).
  destruct (Memory_lookup_inv _ _ _ _ _ Hlook) as (-> & v & Hidx & Hv).
  destruct (Hwf _ _ Hidx) as (r0 & Hr0 & Hkey).
  assert (r0 = r) by congruence. subst r0.
  assert (Hlt : (rel < length (heap (state w)))%nat) by (eapply lookup_lt_Some; eauto).
  simpl in Hup. unfold Memory.Update in Hup. simpl in Hup.
  rewrite list_lookup_insert_eq in Hup by assumption.
  rewrite key_of_mutate, Hkey, Hidx in Hup.
  injection Hup as Hst.
  assert (Hname : Release_Name r = name) by (unfold Memory.key_of in Hkey; congruence).
  assert (Hver : Release_Version r = v) by (unfold Memory.key_of in Hkey; congruence).
  exists rel, r. split; [eauto |]. split; [| split; [assumption |]].
  { intros Hpos. split; [assumption |]. rewrite Hver. auto. }
  rewrite <- Hst. split; [| split].
  - rewrite Memory_view_eq. simpl. rewrite Hname, Hver, lookup_insert_eq.
    apply list_lookup_insert_eq; assumption.
  - intros n v' Hne. rewrite !Memory_view_eq. simpl.
    rewrite Hname, Hver in Hne.
    rewrite lookup_insert_ne by congruence.
    destruct (driver (state w) !! (n, v')) as [l |] eqn:Hl; [| reflexivity].
    apply list_lookup_insert_ne. intros <-.
    destruct (Hwf _ _ Hl) as (r1 & Hr1 & Hk1). congruence.
  - intros k l. simpl. intros Hl.
    destruct (decide (k = (name, v))) as [-> | Hk].
    + rewrite lookup_insert_eq in Hl. injection Hl as <-.
      exists (mutate status (clock w) r). split.
      * apply list_lookup_insert_eq; assumption.
      * rewrite key_of_mutate. assumption.
    + rewrite lookup_insert_ne in Hl by congruence.
      destruct (Hwf _ _ Hl) as (r1 & Hr1 & Hk1).
      exists r1. split; [| assumption].
      rewrite list_lookup_insert_ne; [assumption |]. intros <-. congruence.
Qed.

Lemma Memory_wf_empty  : Memory.wf Memory.empty.
Proof. intros k rel H. unfold Memory.empty in H. simpl in H. rewrite lookup_empty in H. discriminate. Qed.

Lemma Memory_wf_Create (r : Release) (s : State (gmap (string * Z) loc)) :
  Memory.wf s -> Memory.wf (Memory.Create r s).
Proof.
  intros Hwf k rel. unfold Memory.Create. simpl. intros H.
  destruct (decide (k = Memory.key_of r)) as [-> | Hk].
  - rewrite lookup_insert_eq in H. injection H as <-.
    exists r. split; [| reflexivity].
    rewrite lookup_app_r by reflexivity. rewrite Nat.sub_diag. reflexivity.
  - rewrite lookup_insert_ne in H by congruence.
    destruct (Hwf _ _ H) as (r1 & Hr1 & Hk1). exists r1. split; [| assumption].
    apply lookup_app_l_Some. assumption.
Qed.


Lemma Copying_newest_lookup (name : string) (m : gmap (string * Z) Release) (r : Release) :
  Copying.newest name m = Some r -> exists v, m !! (name, v) = Some r.
Proof.
  unfold Copying.newest. revert r.
  apply (map_fold_weak_ind
           (fun acc (m : gmap (string * Z) Release) =>
              forall r, acc = Some r -> exists v, m !! (name, v) = Some r)).
  - discriminate.
  - intros [n k] x m' acc Hfresh IH r. simpl.
    assert (Hkeep : acc = Some r -> exists v, <[(n, k) := x]> m' !! (name, v) = Some r).
    { intros Hacc. destruct (IH _ Hacc) as [v Hv]. exists v.
      rewrite lookup_insert_ne; [assumption |]. intros Heq. rewrite Heq in Hfresh.
      congruence. }
    destruct (String.eqb_spec n name) as [-> | Hne]; [| exact Hkeep].
    destruct acc as [r0 |].
    + destruct (Release_Version r0 <? k)%Z; [| exact Hkeep].
      intros [= <-]. exists k. apply lookup_insert_eq.
    + intros [= <-]. exists k. apply lookup_insert_eq.
Qed.

Lemma snoc_lookup {A} (l : list A) (x : A) : (l ++ [x]) !! length l = Some x.
Proof. rewrite lookup_app_r by reflexivity. rewrite Nat.sub_diag. reflexivity. Qed.

Lemma Copying_view_eq (s : State (gmap (string * Z) Release)) (n : string) (v : Z) :
  view Copying.storage s n v = driver s !! (n, v).
Proof.
  unfold view, Copying.storage, Copying.Get; simpl.
  destruct (driver s !! (n, v)); [| reflexivity]. simpl. apply snoc_lookup.
Qed.

Lemma Copying_view_failing_eq (s : State (gmap (string * Z) Release)) (n : string) (v : Z) :
  view (failingUpdateDriver Copying.storage) s n v = driver s !! (n, v).
Proof. apply Copying_view_eq. Qed.

Lemma Copying_lookup_inv (upd : loc -> State (gmap (string * Z) Release) ->
                        option string * State (gmap (string * Z) Release))
      (name : string) (rev : Z) (s s1 : State (gmap (string * Z) Release)) (rel : loc) :
  lookup (mkConfiguration (mkStorage Copying.Get Copying.Last upd)) name rev s = (inr rel, s1) ->
  exists v r, driver s !! (name, v) = Some r /\ (0 < rev -> v = rev) /\
              rel = length (heap s) /\ s1 = mkState (heap s ++ [r]) (driver s).
Proof.
  unfold lookup; simpl. destruct (0 <? rev)%Z eqn:Hrev.
  - unfold Copying.Get. destruct (driver s !! (name, rev)) as [r |] eqn:Hr; [| discriminate].
    intros [= <- <-]. exists rev, r. auto.
  - unfold Copying.Last. destruct (Copying.newest name (driver s)) as [r |] eqn:Hn; [| discriminate].
    intros [= <- <-]. destruct (Copying_newest_lookup _ _ _ Hn) as [v Hv].
    exists v, r. repeat split; try assumption.
    intros Hpos. apply Z.ltb_lt in Hpos. congruence.
Qed.

Lemma Copying_lookup_driver (upd : loc -> State (gmap (string * Z) Release) ->
                           option string * State (gmap (string * Z) Release))
      (name : string) (rev : Z) (s : State (gmap (string * Z) Release)) :
  driver (snd (lookup (mkConfiguration (mkStorage Copying.Get Copying.Last upd)) name rev s)) = driver s.
Proof.
  unfold lookup; simpl. destruct (0 <? rev)%Z.
  - unfold Copying.Get. destruct (driver s !! (name, rev)); reflexivity.
  - unfold Copying.Last. destruct (Copying.newest name (driver s)); reflexivity.
Qed.

Lemma Copying_isolated : isolated_update Copying.storage Copying.wf.
Proof.
  intros name status rev allowed w w' Hwf Hok.
  destruct (SetStatus_success_inv _ _ _ _ _ _ _ Hok) as (rel & s1 & r & Hlook & Hrel & Hup & Hcalls).
  destruct (Copying_lookup_inv _ _ _ _ _ _ Hlook) as (v & r0 & Hidx & Hv & -> & ->).
  simpl in Hrel. rewrite snoc_lookup in Hrel. injection Hrel as ->.
  pose proof (Hwf _ _ Hidx) as Hkey.
  simpl in Hup. unfold Copying.Update in Hup. simpl in Hup.
  rewrite list_lookup_insert_eq in Hup by (rewrite length_app; simpl; lia).
  rewrite key_of_mutate, Hkey, Hidx in Hup.
  injection Hup as Hst.
  assert (Hname : Release_Name r = name) by (unfold Memory.key_of in Hkey; congruence).
  assert (Hver : Release_Version r = v) by (unfold Memory.key_of in Hkey; congruence).
  exists (length (heap (state w))), r. split; [| split; [| split; [assumption |]]].
  { eexists. split; [exact Hlook |]. apply snoc_lookup. }
  { intros Hpos. split; [assumption |]. rewrite Hver. auto. }
  rewrite <- Hst. split; [| split].
  - rewrite Copying_view_eq. simpl. rewrite Hname, Hver. apply lookup_insert_eq.
  - intros n v' Hne. rewrite !Copying_view_eq. simpl.
    rewrite Hname, Hver in Hne. apply lookup_insert_ne. congruence.
  - intros k r1. simpl. intros Hl.
    destruct (decide (k = (name, v))) as [-> | Hk].
    + rewrite lookup_insert_eq in Hl. injection Hl as <-.
      rewrite key_of_mutate. assumption.
    + rewrite lookup_insert_ne in Hl by congruence. apply Hwf. assumption.
Qed.

(** Whatever way [SetStatus] fails on this store, with its own [Update]
    or with the failing one, the store shows what it showed before. *)
Lemma Copying_failure_leaves_views (S : Storage (gmap (string * Z) Release))
      (name : string) (status : Status) (rev : Z) (allowed : list Status)
      (w w' : World (gmap (string * Z) Release)) (e : error) :
  S = Copying.storage \/ S = failingUpdateDriver Copying.storage ->
  SetStatus (mkConfiguration S) name status rev allowed w = Some (Some e, w') ->
  driver (state w') = driver (state w).
Proof.
  intros HS. rewrite SetStatus_unfold. unfold SetStatus_flat.
  assert (Hd : driver (snd (lookup (mkConfiguration S) name rev (state w)))
               = driver (state w)).
  { destruct HS as [-> | ->]; apply Copying_lookup_driver. }
  destruct (lookup (mkConfiguration S) name rev (state w)) as [[cause | rel] s1].
  - intros [= _ <-]. exact Hd.
  - destruct (heap s1 !! rel) as [r |]; [| discriminate].
    destruct (_ && _).
    + intros [= _ <-]. exact Hd.
    + destruct (Update (Releases (mkConfiguration S)) rel _) as [[cause |] s3] eqn:Hup;
        [| discriminate].
      intros [= _ <-]. simpl. rewrite <- Hd. simpl.
      destruct HS as [-> | ->]; simpl in Hup.
      * unfold Copying.Update in Hup. simpl in Hup.
        destruct (_ !! rel) as [r1 |]; [| injection Hup as _ <-; reflexivity].
        destruct (driver s1 !! Memory.key_of r1); [discriminate |].
        injection Hup as _ <-. reflexivity.
      * injection Hup as _ <-. reflexivity.
Qed.


(** C5: a successful [SetStatus] changes the record of one revision only,
    the one the lookup resolved, under that record's own name and revision;
    with an explicit revision this is the revision asked for.  Every other
    revision, of this and of any other release, shows the record it showed
    before.  This holds on the in-memory store and on a store that keeps
    copies. *)
Theorem SetStatus_revision_isolation :
  isolated_update Memory.storage Memory.wf /\
  isolated_update Copying.storage Copying.wf.
Proof. split; [apply Memory_isolated | apply Copying_isolated]. Qed.

Lemma SetStatus_revision_isolation_witness :
  Memory.wf (state world_r2) /\
  SetStatus memory_cfg "r2" StatusFailed 1 [] world_r2
  = Some (None, after (SetStatus memory_cfg "r2" StatusFailed 1 [] world_r2) world_r2) /\
  exists (rel : loc) (r : Release),
    (exists s1, lookup memory_cfg "r2" 1 (state world_r2) = (inr rel, s1) /\
                heap s1 !! rel = Some r) /\
    (0 < 1 -> Release_Name r = "r2" /\ Release_Version r = 1) /\
    calls (after (SetStatus memory_cfg "r2" StatusFailed 1 [] world_r2) world_r2)
    = (calls world_r2 ++ [lookup_call "r2" 1; CallUpdate rel])%list /\
    view Memory.storage
         (state (after (SetStatus memory_cfg "r2" StatusFailed 1 [] world_r2) world_r2))
         (Release_Name r) (Release_Version r)
    = Some (mutate StatusFailed (clock world_r2) r) /\
    (forall n v, (n, v) <> (Release_Name r, Release_Version r) ->
       view Memory.storage
            (state (after (SetStatus memory_cfg "r2" StatusFailed 1 [] world_r2) world_r2)) n v
       = view Memory.storage (state world_r2) n v) /\
    Memory.wf (state (after (SetStatus memory_cfg "r2" StatusFailed 1 [] world_r2) world_r2)).
Proof.
  assert (Hwf : Memory.wf (state world_r2)).
  { apply Memory_wf_Create, Memory_wf_Create, Memory_wf_empty. }
  assert (Hrun : SetStatus memory_cfg "r2" StatusFailed 1 [] world_r2
                 = Some (None, after (SetStatus memory_cfg "r2" StatusFailed 1 [] world_r2)
                                     world_r2)).
  { vm_compute. reflexivity. }
  split; [exact Hwf |]. split; [exact Hrun |].
  exact (proj1 SetStatus_revision_isolation "r2" StatusFailed 1 [] world_r2 _ Hwf Hrun).
Defined.

(** The second scenario of the specification: revision 1 of "r2" becomes
    [failed], revision 2 stays [deployed]. *)
Example scenario_r2 :
  shown_status Memory.storage
    (state (after (SetStatus memory_cfg "r2" StatusFailed 1 [] world_r2) world_r2)) "r2" 1
  = Some StatusFailed /\
  shown_status Memory.storage
    (state (after (SetStatus memory_cfg "r2" StatusFailed 1 [] world_r2) world_r2)) "r2" 2
  = Some StatusDeployed.
Proof. split; vm_compute; reflexivity. Qed.

(** C8, as stated, fails on the store of [TestSetStatus_UpdateError]: the
    update fails, [SetStatus] returns the update error, and the store now
    shows the release with the new status, description and time. *)
Lemma update_failure_leaves_mutation_visible :
  SetStatus failing_cfg "test-release" StatusFailed 0 [] world_test
  = Some (Some (wrapError "failed to update release test-release: release: not found"
                          (errorString "release: not found")),
          after (SetStatus failing_cfg "test-release" StatusFailed 0 [] world_test) world_test) /\
  view (failingUpdateDriver Memory.storage) (state world_test) "test-release" 1
  = Some (fixture "test-release" 1 StatusDeployed) /\
  view (failingUpdateDriver Memory.storage)
       (state (after (SetStatus failing_cfg "test-release" StatusFailed 0 [] world_test)
                     world_test)) "test-release" 1
  = Some (mkRelease "test-release"
            (mkInfo 0 42 0 "status set to failed" StatusFailed EmptyString)
            ("test-chart", "1.0.0") [] EmptyString [] 1 "default" []) /\
  shown_status (failingUpdateDriver Memory.storage)
       (state (after (SetStatus failing_cfg "test-release" StatusFailed 0 [] world_test)
                     world_test)) "test-release" 1
  <> shown_status (failingUpdateDriver Memory.storage) (state world_test) "test-release" 1.
Proof.
  repeat split; try (vm_compute; reflexivity).
  vm_compute. discriminate.
Qed.

(** C8, as the code has it: when the update fails with some cause,
    [SetStatus] returns "failed to update release <name>: <cause>" wrapping
    the cause.  The update was called on the record already carrying the
    new status, description and time, and the state it left is the final
    one: nothing is restored.  On a store that hands out copies, with its
    own or with a failing update, a failed call leaves every revision
    showing what it showed before. *)
Theorem SetStatus_update_failure :
  (forall (D : Type) (cfg : Configuration D) (releaseName : string) (status : Status)
          (revision : Z) (allowedFromStatuses : list Status) (w : World D)
          (rel : loc) (s1 : State D) (r : Release) (cause : string) (s3 : State D),
      lookup cfg releaseName revision (state w) = (inr rel, s1) ->
      heap s1 !! rel = Some r ->
      allowedFromStatuses = [] \/ In (Info_Status (Release_Info r)) allowedFromStatuses ->
      Update (Releases cfg) rel
             (mkState (<[rel := mutate status (clock w) r]> (heap s1)) (driver s1))
      = (Some cause, s3) ->
      exists w',
        SetStatus cfg releaseName status revision allowedFromStatuses w
        = Some (Some (wrapError ("failed to update release " +:+ releaseName +:+ ": " +:+ cause)
                                (errorString cause)), w') /\
        state w' = s3 /\
        calls w' = (calls w ++ [lookup_call releaseName revision; CallUpdate rel])%list) /\
  (forall (S : Storage (gmap (string * Z) Release)) (releaseName : string)
          (status : Status) (revision : Z) (allowedFromStatuses : list Status)
          (w w' : World (gmap (string * Z) Release)) (e : error),
      S = Copying.storage \/ S = failingUpdateDriver Copying.storage ->
      SetStatus (mkConfiguration S) releaseName status revision allowedFromStatuses w
      = Some (Some e, w') ->
      forall n v, view S (state w') n v = view S (state w) n v).
Proof.
  split.
  - intros D cfg releaseName status revision allowed w rel s1 r cause s3 Hlook Hrel Hpre Hup.
    rewrite SetStatus_unfold. unfold SetStatus_flat. rewrite Hlook, Hrel.
    assert (Hc : ((0 <? length allowed)%nat
                  && negb (allowed_loop (Info_Status (Release_Info r)) allowed)) = false).
    { destruct Hpre as [-> | Hin]; [reflexivity |].
      apply allowed_loop_In in Hin. rewrite Hin. apply andb_false_r. }
    rewrite Hc, Hup, update_error_eq.
    eexists. split; [reflexivity |]. split; [reflexivity |].
    simpl. rewrite <- app_assoc. reflexivity.
  - intros S releaseName status revision allowed w w' e HS Hrun n v.
    pose proof (Copying_failure_leaves_views S _ _ _ _ _ _ _ HS Hrun) as Hd.
    destruct HS as [-> | ->].
    + rewrite !Copying_view_eq, Hd. reflexivity.
    + rewrite !Copying_view_failing_eq, Hd. reflexivity.
Qed.

Lemma SetStatus_update_failure_witness :
  (exists w',
     SetStatus failing_cfg "test-release" StatusFailed 0 [] world_test
     = Some (Some (wrapError ("failed to update release " +:+ "test-release" +:+ ": " +:+
                              ErrReleaseNotFound)
                             (errorString ErrReleaseNotFound)), w') /\
     state w' = mkState (<[0%nat := mutate StatusFailed 42 (fixture "test-release" 1 StatusDeployed)]>
                           (heap store_test)) (driver store_test) /\
     calls w' = (calls world_test ++ [lookup_call "test-release" 0; CallUpdate 0%nat])%list) /\
  (forall n v,
     view (failingUpdateDriver Copying.storage)
          (state (after (SetStatus (mkConfiguration (failingUpdateDriver Copying.storage))
                                   "test-release" StatusFailed 0 [] world_copy) world_copy)) n v
     = view (failingUpdateDriver Copying.storage) (state world_copy) n v).
Proof.
  split.
  - apply (proj1 SetStatus_update_failure _ failing_cfg "test-release" StatusFailed 0 []
                 world_test 0%nat store_test (fixture "test-release" 1 StatusDeployed)
                 ErrReleaseNotFound).
    + vm_compute. reflexivity.
    + vm_compute. reflexivity.
    + left. reflexivity.
    + reflexivity.
  - apply (proj2 SetStatus_update_failure (failingUpdateDriver Copying.storage)
                 "test-release" StatusFailed 0 [] world_copy _
                 (wrapError "failed to update release test-release: release: not found"
                            (errorString "release: not found"))).
    + right. reflexivity.
    + vm_compute. reflexivity.
Defined.

(** ** The scenarios, run *)

Lemma SetStatus_precondition_witness :
  lookup memory_cfg "r1" 0 (state world_r1) = (inr 0%nat, store_r1) /\
  heap store_r1 !! 0%nat = Some (fixture "r1" 1 StatusDeployed) /\
  exists res w2,
    SetStatus memory_cfg "r1" StatusFailed 0 [StatusPendingUpgrade; StatusPendingRollback]
              world_r1 = Some (res, w2) /\
    res = Some (PreconditionError StatusDeployed [StatusPendingUpgrade; StatusPendingRollback]) /\
    state w2 = store_r1 /\
    calls w2 = [CallLast "r1"].
Proof.
  assert (H1 : lookup memory_cfg "r1" 0 (state world_r1) = (inr 0%nat, store_r1))
    by (vm_compute; reflexivity).
  assert (H2 : heap store_r1 !! 0%nat = Some (fixture "r1" 1 StatusDeployed))
    by reflexivity.
  split; [exact H1 |]. split; [exact H2 |].
  destruct (SetStatus_precondition memory_cfg "r1" StatusFailed 0
              [StatusPendingUpgrade; StatusPendingRollback] world_r1 0%nat store_r1
              (fixture "r1" 1 StatusDeployed) H1 H2)
    as (res & w2 & Hrun & Hiff & _ & Hfail).
  exists res, w2. split; [exact Hrun |].
  assert (Hpre : exists e p, res = Some e /\ As_PreconditionError e = Some p).
  { apply Hiff. split; [discriminate |]. simpl. intuition discriminate. }
  destruct (Hfail Hpre) as (Hres & Hst & _ & Hcalls & _).
  repeat split; assumption.
Defined.

Lemma SetStatus_lookup_failure_witness :
  SetStatus memory_cfg "non-existent" StatusFailed 0 [] world_empty
  = Some (Some (ReleaseNotFoundError "non-existent"),
          log (CallLast "non-existent") (put_state Memory.empty world_empty)) /\
  exists e,
    SetStatus memory_cfg "non-existent" StatusFailed 5 [] world_empty
    = Some (Some e, log (CallGet "non-existent" 5) (put_state Memory.empty world_empty)) /\
    e = wrapError ("failed to get release " +:+ "non-existent" +:+ " revision " +:+
                   Fmt.decimal 5 +:+ ": " +:+ ErrReleaseNotFound)
                  (errorString ErrReleaseNotFound) /\
    As_ReleaseNotFoundError e = None /\
    e <> ReleaseNotFoundError "non-existent" /\
    Fmt.Contains (Error e) "non-existent" /\
    Fmt.Contains (Error e) (Fmt.decimal 5) /\
    Fmt.Contains (Error e) ErrReleaseNotFound.
Proof.
  split.
  - apply (proj1 (SetStatus_lookup_failure memory_cfg "non-existent" StatusFailed 0 []
                    world_empty ErrReleaseNotFound Memory.empty)).
    + reflexivity.
    + vm_compute. reflexivity.
  - apply (proj2 (SetStatus_lookup_failure memory_cfg "non-existent" StatusFailed 5 []
                    world_empty ErrReleaseNotFound Memory.empty)).
    + reflexivity.
    + vm_compute. reflexivity.
Defined.

Example lookup_failure_text :
  Error (lookup_error "test-release" 5 ErrReleaseNotFound)
  = "failed to get release test-release revision 5: release: not found".
Proof. vm_compute. reflexivity. Qed.

Lemma SetStatus_success_frame_witness :
  SetStatus memory_cfg "r1" StatusFailed 0 [] world_r1
  = Some (None, after (SetStatus memory_cfg "r1" StatusFailed 0 [] world_r1) world_r1) /\
  exists (rel : loc) (s1 : State (gmap (string * Z) loc)) (r r' : Release),
    lookup memory_cfg "r1" 0 (state world_r1) = (inr rel, s1) /\
    heap s1 !! rel = Some r /\
    r' = mkRelease (Release_Name r)
           (mkInfo (Info_FirstDeployed (Release_Info r)) (clock world_r1)
                   (Info_Deleted (Release_Info r))
                   ("status set to " +:+ Status_String StatusFailed) StatusFailed
                   (Info_Notes (Release_Info r)))
           (Release_Chart r) (Release_Config r) (Release_Manifest r)
           (Release_Hooks r) (Release_Version r) (Release_Namespace r)
           (Release_Labels r) /\
    let s2 := mkState (<[rel := r']> (heap s1)) (driver s1) in
    heap s2 !! rel = Some r' /\
    (forall l : loc, l <> rel -> heap s2 !! l = heap s1 !! l) /\
    Update (Releases memory_cfg) rel s2
    = (None, state (after (SetStatus memory_cfg "r1" StatusFailed 0 [] world_r1) world_r1)) /\
    calls (after (SetStatus memory_cfg "r1" StatusFailed 0 [] world_r1) world_r1)
    = (calls world_r1 ++ [lookup_call "r1" 0; CallUpdate rel])%list.
Proof.
  assert (Hrun : SetStatus memory_cfg "r1" StatusFailed 0 [] world_r1
                 = Some (None, after (SetStatus memory_cfg "r1" StatusFailed 0 [] world_r1)
                                     world_r1))
    by (vm_compute; reflexivity).
  split; [exact Hrun |].
  exact (SetStatus_success_frame memory_cfg "r1" StatusFailed 0 [] world_r1 _ Hrun).
Defined.

(** The first scenario of the specification. *)
Example scenario_r1 :
  view Memory.storage
       (state (after (SetStatus memory_cfg "r1" StatusFailed 0 [] world_r1) world_r1)) "r1" 1
  = Some (mkRelease "r1" (mkInfo 0 42 0 "status set to failed" StatusFailed EmptyString)
            ("test-chart", "1.0.0") [] EmptyString [] 1 "default" []).
Proof. vm_compute. reflexivity. Qed.

Lemma SetStatus_calls {D} (cfg : Configuration D) (releaseName : string)
      (status : Status) (revision : Z) (allowedFromStatuses : list Status)
      (w w' : World D) (res : option error) :
  SetStatus cfg releaseName status revision allowedFromStatuses w = Some (res, w') ->
  exists rest,
    calls w' = (calls w ++ lookup_call releaseName revision :: rest)%list /\
    (rest = [] \/ exists rel, rest = [CallUpdate rel]).
Proof.
  rewrite SetStatus_unfold. unfold SetStatus_flat.
  destruct (lookup cfg releaseName revision (state w)) as [[cause | rel] s1].
  - intros [= _ <-]. exists []. split; [reflexivity | left; reflexivity].
  - destruct (heap s1 !! rel) as [r |]; [| discriminate].
    destruct (_ && _).
    + intros [= _ <-]. exists []. split; [reflexivity | left; reflexivity].
    + destruct (Update (Releases cfg) rel _) as [e s3]. intros [= _ <-].
      exists [CallUpdate rel]. split; [| right; eauto].
      simpl. rewrite <- app_assoc. reflexivity.
Qed.

Lemma SetStatus_nonpositive_revision {D} (cfg : Configuration D) (releaseName : string)
      (status : Status) (revision : Z) (allowedFromStatuses : list Status) (w : World D) :
  revision <= 0 ->
  SetStatus cfg releaseName status revision allowedFromStatuses w
  = SetStatus cfg releaseName status 0 allowedFromStatuses w.
Proof.
  intros H. apply Z.ltb_ge in H.
  rewrite !SetStatus_unfold.
  unfold SetStatus_flat, lookup, lookup_call, lookup_error. rewrite H. reflexivity.
Qed.

Lemma runWithConfigFactory_calls {D} (releaseName statusStr : string) (rest : list string)
      (rev : Z) (fromStatuses : list string) (noFail : bool)
      (configFactory : unit -> error + Configuration D) (w w' : World D)
      (res : option error) :
  In statusStr ValidStatuses ->
  List.Forall (fun s => In s ValidStatuses) fromStatuses ->
  (exists cfg, configFactory tt = inr cfg) ->
  runWithConfigFactory (releaseName :: statusStr :: rest) rev fromStatuses noFail
                       configFactory w = Some (res, w') ->
  exists more,
    calls w' = (calls w ++ CallConfigFactory :: lookup_call releaseName rev :: more)%list /\
    (more = [] \/ exists rel, more = [CallUpdate rel]).
Proof.
  intros Hs Hfrom [cfg Hfac]. unfold runWithConfigFactory. simpl.
  rewrite (ParseStatus_valid _ Hs), (parse_from_valid _ [] Hfrom).
  unfold bind, invoke. rewrite Hfac.
  destruct (SetStatus cfg releaseName statusStr rev _ (log CallConfigFactory w))
    as [[r w2] |] eqn:Hrun; [| discriminate].
  destruct (SetStatus_calls _ _ _ _ _ _ _ _ Hrun) as (more & Hcalls & Hmore).
  simpl in Hcalls. rewrite <- app_assoc in Hcalls. simpl in Hcalls.
  intros H. exists more. split; [| assumption].
  destruct r as [err |].
  - destruct (_ && noFail) in H; injection H as _ <-; simpl; assumption.
  - destruct (0 <? rev)%Z in H; injection H as _ <-; simpl; assumption.
Qed.

(** C9, as the code has it: a revision above 0 is looked up with [Get]
    under that number; 0 and every negative revision go to the
    latest-lookup [Last].  No revision is turned away as invalid: with a
    revision of 0 or below [SetStatus] and the wrapper do exactly what they
    do with revision 0, every call of [SetStatus] that returns has made the
    lookup its revision selects, and so has every run of the wrapper on
    valid statuses with a working factory. *)
Theorem revision_routing {D} (cfg : Configuration D) (releaseName : string)
        (status : Status) (revision : Z) (allowedFromStatuses : list Status)
        (statusStr : string) (rest : list string) (fromStatuses : list string)
        (noFail : bool) (configFactory : unit -> error + Configuration D) (w : World D) :
  (0 < revision ->
   (forall res w',
       SetStatus cfg releaseName status revision allowedFromStatuses w = Some (res, w') ->
       exists more,
         calls w' = (calls w ++ CallGet releaseName revision :: more)%list /\
         (more = [] \/ exists rel, more = [CallUpdate rel])) /\
   (forall res w',
       In statusStr ValidStatuses ->
       List.Forall (fun s => In s ValidStatuses) fromStatuses ->
       (exists cfg', configFactory tt = inr cfg') ->
       runWithConfigFactory (releaseName :: statusStr :: rest) revision fromStatuses noFail
                            configFactory w = Some (res, w') ->
       exists more,
         calls w' = (calls w ++ CallConfigFactory :: CallGet releaseName revision :: more)%list /\
         (more = [] \/ exists rel, more = [CallUpdate rel]))) /\
  (revision <= 0 ->
   SetStatus cfg releaseName status revision allowedFromStatuses w
   = SetStatus cfg releaseName status 0 allowedFromStatuses w /\
   (forall args,
       runWithConfigFactory args revision fromStatuses noFail configFactory w
       = runWithConfigFactory args 0 fromStatuses noFail configFactory w) /\
   (forall res w',
       SetStatus cfg releaseName status revision allowedFromStatuses w = Some (res, w') ->
       exists more,
         calls w' = (calls w ++ CallLast releaseName :: more)%list /\
         (more = [] \/ exists rel, more = [CallUpdate rel])) /\
   (forall res w',
       In statusStr ValidStatuses ->
       List.Forall (fun s => In s ValidStatuses) fromStatuses ->
       (exists cfg', configFactory tt = inr cfg') ->
       runWithConfigFactory (releaseName :: statusStr :: rest) revision fromStatuses noFail
                            configFactory w = Some (res, w') ->
       exists more,
         calls w' = (calls w ++ CallConfigFactory :: CallLast releaseName :: more)%list /\
         (more = [] \/ exists rel, more = [CallUpdate rel]))).
Proof.
  split.
  - intros Hpos. apply Z.ltb_lt in Hpos. split.
    + intros res w' Hrun. pose proof (SetStatus_calls _ _ _ _ _ _ _ _ Hrun) as H.
      unfold lookup_call in H. rewrite Hpos in H. exact H.
    + intros res w' Hs Hfrom Hfac Hrun.
      pose proof (runWithConfigFactory_calls _ _ _ _ _ _ _ _ _ _ Hs Hfrom Hfac Hrun) as H.
      unfold lookup_call in H. rewrite Hpos in H. exact H.
  - intros Hle. pose proof Hle as Hb. apply Z.ltb_ge in Hb.
    split; [apply SetStatus_nonpositive_revision; assumption |].
    split; [| split].
    + intros args. unfold runWithConfigFactory.
      destruct (args !! 0%nat) as [name |]; [| reflexivity].
      destruct (args !! 1%nat) as [st |]; [| reflexivity].
      destruct (ParseStatus st) as [targetStatus [err |]]; [reflexivity |].
      destruct (parse_from fromStatuses []) as [err | allowed]; [reflexivity |].
      unfold bind, invoke.
      destruct (configFactory tt) as [err | cfg0]; [reflexivity |].
      rewrite (SetStatus_nonpositive_revision cfg0 name targetStatus revision allowed _ Hle).
      rewrite Hb. reflexivity.
    + intros res w' Hrun. pose proof (SetStatus_calls _ _ _ _ _ _ _ _ Hrun) as H.
      unfold lookup_call in H. rewrite Hb in H. exact H.
    + intros res w' Hs Hfrom Hfac Hrun.
      pose proof (runWithConfigFactory_calls _ _ _ _ _ _ _ _ _ _ Hs Hfrom Hfac Hrun) as H.
      unfold lookup_call in H. rewrite Hb in H. exact H.
Qed.

Lemma revision_routing_witness :
  (exists more,
     calls (after (SetStatus memory_cfg "r2" StatusFailed 1 [] world_r2) world_r2)
     = (calls world_r2 ++ CallGet "r2" 1 :: more)%list /\
     (more = [] \/ exists rel, more = [CallUpdate rel])) /\
  SetStatus memory_cfg "r2" StatusFailed (-7) [] world_r2
  = SetStatus memory_cfg "r2" StatusFailed 0 [] world_r2 /\
  (forall args,
      runWithConfigFactory args (-7) [] false (fun _ => inr memory_cfg) world_r2
      = runWithConfigFactory args 0 [] false (fun _ => inr memory_cfg) world_r2) /\
  (exists more,
     calls (after (runWithConfigFactory ("r2" :: "failed" :: []) (-7) [] false
                                        (fun _ => inr memory_cfg) world_r2) world_r2)
     = (calls world_r2 ++ CallConfigFactory :: CallLast "r2" :: more)%list /\
     (more = [] \/ exists rel, more = [CallUpdate rel])).
Proof.
  split; [| split; [| split]].
  - apply (proj1 (proj1 (revision_routing memory_cfg "r2" StatusFailed 1 [] "failed" [] []
                           false (fun _ => inr memory_cfg) world_r2) ltac:(lia)) None).
    vm_compute. reflexivity.
  - apply (proj2 (revision_routing memory_cfg "r2" StatusFailed (-7) [] "failed" [] []
                    false (fun _ => inr memory_cfg) world_r2)). lia.
  - apply (proj2 (revision_routing memory_cfg "r2" StatusFailed (-7) [] "failed" [] []
                    false (fun _ => inr memory_cfg) world_r2)). lia.
  - apply (proj2 (proj2 (proj2 (proj2 (revision_routing memory_cfg "r2" StatusFailed (-7) []
                                         "failed" [] [] false (fun _ => inr memory_cfg)
                                         world_r2) ltac:(lia)))) None).
    + unfold ValidStatuses. simpl. tauto.
    + constructor.
    + exists memory_cfg. reflexivity.
    + vm_compute. reflexivity.
Defined.

(** C9, as stated, fails at revision -1: the call is not rejected, no
    lookup by name and revision is made, the latest-lookup is, and the
    newest revision gets the new status.  The wrapper reports success. *)
Lemma negative_revision_takes_latest :
  SetStatus memory_cfg "r2" StatusFailed (-1) [] world_r2
  = Some (None, after (SetStatus memory_cfg "r2" StatusFailed (-1) [] world_r2) world_r2) /\
  calls (after (SetStatus memory_cfg "r2" StatusFailed (-1) [] world_r2) world_r2)
  = [CallLast "r2"; CallUpdate 1%nat] /\
  shown_status Memory.storage
    (state (after (SetStatus memory_cfg "r2" StatusFailed (-1) [] world_r2) world_r2)) "r2" 2
  = Some StatusFailed /\
  shown_status Memory.storage
    (state (after (SetStatus memory_cfg "r2" StatusFailed (-1) [] world_r2) world_r2)) "r2" 1
  = Some StatusSuperseded /\
  runWithConfigFactory ["r2"; "failed"] (-1) [] false (fun _ => inr memory_cfg) world_r2
  = Some (None,
          after (runWithConfigFactory ["r2"; "failed"] (-1) [] false
                                      (fun _ => inr memory_cfg) world_r2) world_r2) /\
  calls (after (runWithConfigFactory ["r2"; "failed"] (-1) [] false
                                     (fun _ => inr memory_cfg) world_r2) world_r2)
  = [CallConfigFactory; CallLast "r2"; CallUpdate 1%nat] /\
  stdout (after (runWithConfigFactory ["r2"; "failed"] (-1) [] false
                                      (fun _ => inr memory_cfg) world_r2) world_r2)
  = "Release " +:+ Fmt.dquote +:+ "r2" +:+ Fmt.dquote +:+ " status set to " +:+
    Fmt.dquote +:+ "failed" +:+ Fmt.dquote +:+ Fmt.newline.
Proof. repeat split; vm_compute; reflexivity. Qed.

Lemma runWithConfigFactory_rejects_invalid_status_witness :
  exists e,
    runWithConfigFactory ("my-release" :: "invalid-status" :: []) 0 [] false
                         (fun _ => inl (errorString "should not be called")) world_r1
    = Some (Some e, world_r1) /\
    (exists pre, Error e = pre +:+ hint) /\
    Forall (Fmt.Contains (Error e)) ValidStatuses /\
    Fmt.Contains (Error e) "invalid status: " /\
    hint = Fmt.newline +:+
           "Valid statuses: unknown, deployed, superseded, failed, uninstalling, pending-install, pending-upgrade, pending-rollback".
Proof.
  apply (runWithConfigFactory_rejects_invalid_status "my-release" "invalid-status" [] 0 []
           false (fun _ => inl (errorString "should not be called")) world_r1).
  left. unfold ValidStatuses. simpl. intuition discriminate.
Defined.

Example rejects_invalid_from_status :
  runWithConfigFactory ["test-release"; "deployed"] 0 ["invalid-status"] false
                       (fun _ => inl (errorString "should not be called")) world_r1
  = Some (Some (wrapError ("invalid --from status " +:+ Fmt.dquote +:+ "invalid-status" +:+
                           Fmt.dquote +:+ ": invalid status: invalid-status" +:+ hint)
                          (errorString "invalid status: invalid-status")),
          world_r1).
Proof. vm_compute. reflexivity. Qed.

Lemma runWithConfigFactory_skip_policy_witness :
  exists res w3,
    runWithConfigFactory ("r1" :: "failed" :: []) 0 ["pending-upgrade"; "pending-rollback"]
                         true (fun _ => inr memory_cfg) world_r1 = Some (res, w3) /\
    res = None /\
    stdout w3 = "Skipped: current status " +:+ Fmt.dquote +:+ "deployed" +:+ Fmt.dquote +:+
                " is not in allowed list: [pending-upgrade pending-rollback]" +:+
                Fmt.newline /\
    state w3 = store_r1.
Proof.
  destruct (runWithConfigFactory_skip_policy "r1" "failed" [] 0
              ["pending-upgrade"; "pending-rollback"] true (fun _ => inr memory_cfg) world_r1
              StatusFailed [StatusPendingUpgrade; StatusPendingRollback] memory_cfg
              (PreconditionError StatusDeployed [StatusPendingUpgrade; StatusPendingRollback])
              (log (CallLast "r1") (log CallConfigFactory world_r1))
              eq_refl eq_refl eq_refl)
    as (res & w3 & Hrun & Hiff & Hskip & _).
  { vm_compute. reflexivity. }
  exists res, w3. split; [exact Hrun |].
  assert (Hres : res = None).
  { apply Hiff. split; [eauto | reflexivity]. }
  split; [exact Hres |].
  destruct (Hskip Hres) as (cur & Hcur & Hw & _).
  injection Hcur as <-. rewrite Hw. split; reflexivity.
Defined.

(** * Further properties of the code *)

(** ** The engine on any store *)

(** A call that returns has made one lookup and at most one update, in
    that order, has printed nothing and has not touched the clock.  The
    update is made exactly when the lookup and the precondition passed;
    without it the state is the one the lookup left. *)
Theorem SetStatus_call_discipline {D} (cfg : Configuration D) (releaseName : string)
        (status : Status) (revision : Z) (allowedFromStatuses : list Status)
        (w w' : World D) (res : option error) :
  SetStatus cfg releaseName status revision allowedFromStatuses w = Some (res, w') ->
  clock w' = clock w /\ stdout w' = stdout w /\
  ((calls w' = (calls w ++ [lookup_call releaseName revision])%list /\
    state w' = snd (lookup cfg releaseName revision (state w)) /\
    exists e, res = Some e /\
              ((exists cause, e = lookup_error releaseName revision cause) \/
               (exists cur, e = PreconditionError cur allowedFromStatuses))) \/
   (exists rel,
      fst (lookup cfg releaseName revision (state w)) = inr rel /\
      calls w' = (calls w ++ [lookup_call releaseName revision; CallUpdate rel])%list /\
      (res = None \/ exists cause, res = Some (update_error releaseName cause)))).
Proof.
  rewrite SetStatus_unfold. unfold SetStatus_flat.
  destruct (lookup cfg releaseName revision (state w)) as [[cause | rel] s1].
  - intros [= <- <-]. repeat split. left. repeat split. eauto.
  - destruct (heap s1 !! rel) as [r |]; [| discriminate].
    destruct (_ && _).
    + intros [= <- <-]. repeat split. left. repeat split. eauto.
    + destruct (Update (Releases cfg) rel _) as [[cause |] s3]; intros [= <- <-];
        repeat split; right; exists rel; simpl; rewrite <- app_assoc; eauto.
Qed.

Lemma SetStatus_call_discipline_witness :
  SetStatus memory_cfg "r2" StatusFailed 1 [] world_r2
  = Some (None, after (SetStatus memory_cfg "r2" StatusFailed 1 [] world_r2) world_r2) /\
  calls (after (SetStatus memory_cfg "r2" StatusFailed 1 [] world_r2) world_r2)
  = [CallGet "r2" 1; CallUpdate 0%nat].
Proof.
  assert (Hrun : SetStatus memory_cfg "r2" StatusFailed 1 [] world_r2
                 = Some (None, after (SetStatus memory_cfg "r2" StatusFailed 1 [] world_r2)
                                     world_r2))
    by (vm_compute; reflexivity).
  split; [exact Hrun |].
  destruct (SetStatus_call_discipline memory_cfg "r2" StatusFailed 1 [] world_r2 _ _ Hrun)
    as (_ & _ & [(_ & _ & e & He & _) | (rel & Hrel & Hcalls & _)]).
  - discriminate.
  - vm_compute in Hrel. injection Hrel as <-. exact Hcalls.
Defined.

(** [SetStatus] returns a result whenever the store's lookup fails and
    whenever it hands out a release (which, as everywhere here, carries
    its [Info]); it panics when the lookup reports success and hands out a
    pointer to nothing. *)
Theorem SetStatus_returns_or_panics {D} (cfg : Configuration D) (releaseName : string)
        (status : Status) (revision : Z) (allowedFromStatuses : list Status) (w : World D) :
  (forall cause s1,
      lookup cfg releaseName revision (state w) = (inl cause, s1) ->
      exists e w', SetStatus cfg releaseName status revision allowedFromStatuses w
                   = Some (Some e, w')) /\
  (forall rel s1 r,
      lookup cfg releaseName revision (state w) = (inr rel, s1) ->
      heap s1 !! rel = Some r ->
      exists res w', SetStatus cfg releaseName status revision allowedFromStatuses w
                     = Some (res, w')) /\
  (forall rel s1,
      lookup cfg releaseName revision (state w) = (inr rel, s1) ->
      heap s1 !! rel = None ->
      SetStatus cfg releaseName status revision allowedFromStatuses w = None).
Proof.
  rewrite SetStatus_unfold. unfold SetStatus_flat.
  split; [| split].
  - intros cause s1 ->. eauto.
  - intros rel s1 r -> ->.
    destruct (_ && _); [eauto |].
    destruct (Update (Releases cfg) rel _) as [e s3]. eauto.
  - intros rel s1 -> ->. reflexivity.
Qed.

Lemma SetStatus_returns_or_panics_witness :
  (exists e w', SetStatus memory_cfg "non-existent" StatusFailed 0 [] world_r2
                = Some (Some e, w')) /\
  (exists res w', SetStatus memory_cfg "r2" StatusFailed 1 [] world_r2 = Some (res, w')) /\
  SetStatus (mkConfiguration (mkStorage (fun _ _ s => (inr 7%nat, s))
                                        (fun _ s => (inr 7%nat, s))
                                        (fun _ s => (None, s))))
            "r2" StatusFailed 1 [] world_r2 = None.
Proof.
  split; [| split].
  - apply (proj1 (SetStatus_returns_or_panics memory_cfg "non-existent" StatusFailed 0 []
                    world_r2) ErrReleaseNotFound (state world_r2)).
    vm_compute. reflexivity.
  - apply (proj1 (proj2 (SetStatus_returns_or_panics memory_cfg "r2" StatusFailed 1 []
                           world_r2)) 0%nat (state world_r2)
                 (fixture "r2" 1 StatusSuperseded)).
    + vm_compute. reflexivity.
    + reflexivity.
  - apply (proj2 (proj2 (SetStatus_returns_or_panics
                           (mkConfiguration (mkStorage (fun _ _ s => (inr 7%nat, s))
                                                       (fun _ s => (inr 7%nat, s))
                                                       (fun _ s => (None, s))))
                           "r2" StatusFailed 1 [] world_r2)) 7%nat (state world_r2)).
    + reflexivity.
    + reflexivity.
Defined.

Lemma allowed_loop_same_elements (cur : Status) (l l' : list Status) :
  (forall x, In x l <-> In x l') ->
  ((0 <? length l)%nat && negb (allowed_loop cur l))
  = ((0 <? length l')%nat && negb (allowed_loop cur l')).
Proof.
  intros H.
  assert (Hloop : allowed_loop cur l = allowed_loop cur l').
  { destruct (allowed_loop cur l) eqn:E1, (allowed_loop cur l') eqn:E2; try reflexivity.
    - apply allowed_loop_In, H, allowed_loop_In in E1. congruence.
    - apply allowed_loop_In, H, allowed_loop_In in E2. congruence. }
  rewrite Hloop.
  destruct l as [| a l], l' as [| a' l']; try reflexivity.
  - exfalso. apply (H a'). left; reflexivity.
  - exfalso. apply (H a). left; reflexivity.
Qed.

(** The allowed list counts as a set: two lists with the same elements, in
    any order and with any repetitions, give the same outcome and the same
    final world; only the list carried inside a [PreconditionError] is the
    one that was passed. *)
Theorem SetStatus_allowed_list_as_set {D} (cfg : Configuration D) (releaseName : string)
        (status : Status) (revision : Z) (l l' : list Status) (w : World D) :
  (forall x, In x l <-> In x l') ->
  match SetStatus cfg releaseName status revision l w with
  | None => SetStatus cfg releaseName status revision l' w = None
  | Some (Some (PreconditionError cur _), w') =>
      SetStatus cfg releaseName status revision l' w
      = Some (Some (PreconditionError cur l'), w')
  | Some (res, w') =>
      SetStatus cfg releaseName status revision l' w = Some (res, w')
  end.
Proof.
  intros H. rewrite !SetStatus_unfold. unfold SetStatus_flat.
  destruct (lookup cfg releaseName revision (state w)) as [[cause | rel] s1].
  - unfold lookup_error. destruct (0 <? revision)%Z; reflexivity.
  - destruct (heap s1 !! rel) as [r |]; [| reflexivity].
    rewrite (allowed_loop_same_elements _ l l' H).
    destruct (_ && _); [reflexivity |].
    destruct (Update (Releases cfg) rel _) as [[cause |] s3]; reflexivity.
Qed.

Lemma SetStatus_allowed_list_as_set_witness :
  SetStatus memory_cfg "r1" StatusFailed 0
            [StatusPendingUpgrade; StatusDeployed; StatusPendingUpgrade] world_r1
  = SetStatus memory_cfg "r1" StatusFailed 0 [StatusDeployed; StatusPendingUpgrade] world_r1.
Proof.
  pose proof (SetStatus_allowed_list_as_set memory_cfg "r1" StatusFailed 0
                [StatusDeployed; StatusPendingUpgrade]
                [StatusPendingUpgrade; StatusDeployed; StatusPendingUpgrade] world_r1) as H.
  assert (Hrun : SetStatus memory_cfg "r1" StatusFailed 0
                   [StatusDeployed; StatusPendingUpgrade] world_r1
                 = Some (None, after (SetStatus memory_cfg "r1" StatusFailed 0
                                        [StatusDeployed; StatusPendingUpgrade] world_r1)
                                     world_r1))
    by (vm_compute; reflexivity).
  rewrite Hrun in H |- *. apply H.
  intros x. simpl. tauto.
Defined.

(** Over a store whose update always fails the call never reports success:
    it returns the lookup error, the precondition error, or the update
    error "failed to update release <name>: release: not found". *)
Theorem failingUpdateDriver_never_succeeds {D} (S : Storage D) (releaseName : string)
        (status : Status) (revision : Z) (allowedFromStatuses : list Status)
        (w w' : World D) (res : option error) :
  SetStatus (mkConfiguration (failingUpdateDriver S)) releaseName status revision
            allowedFromStatuses w = Some (res, w') ->
  exists e, res = Some e /\
    ((exists cause, e = lookup_error releaseName revision cause) \/
     (exists cur, e = PreconditionError cur allowedFromStatuses) \/
     (e = update_error releaseName ErrReleaseNotFound /\
      Error e = "failed to update release " +:+ releaseName +:+ ": release: not found")).
Proof.
  rewrite SetStatus_unfold. unfold SetStatus_flat.
  destruct (lookup _ releaseName revision (state w)) as [[cause | rel] s1].
  - intros [= <- _]. eauto.
  - destruct (heap s1 !! rel) as [r |]; [| discriminate].
    destruct (_ && _).
    + intros [= <- _]. eauto 6.
    + simpl. intros [= <- _]. eexists. split; [reflexivity |]. right; right.
      split; [reflexivity |]. rewrite update_error_eq. reflexivity.
Qed.

Lemma failingUpdateDriver_never_succeeds_witness :
  exists e,
    Some (update_error "test-release" ErrReleaseNotFound) = Some e /\
    ((exists cause, e = lookup_error "test-release" 0 cause) \/
     (exists cur, e = PreconditionError cur []) \/
     (e = update_error "test-release" ErrReleaseNotFound /\
      Error e = "failed to update release " +:+ "test-release" +:+ ": release: not found")).
Proof.
  apply (failingUpdateDriver_never_succeeds Memory.storage "test-release" StatusFailed 0 []
           world_test
           (after (SetStatus failing_cfg "test-release" StatusFailed 0 [] world_test)
                  world_test)).
  vm_compute. reflexivity.
Defined.

(** ** The engine on the in-memory store *)

Lemma Memory_newest_spec (name : string) (m : gmap (string * Z) loc) :
  match Memory.newest name m with
  | Some (v, rel) =>
      m !! (name, v) = Some rel /\
      forall v' l, m !! (name, v') = Some l -> v' <= v
  | None => forall v', m !! (name, v') = None
  end.
Proof.
  unfold Memory.newest.
  apply (map_fold_weak_ind
           (fun acc (m : gmap (string * Z) loc) =>
              match acc with
              | Some (v, rel) =>
                  m !! (name, v) = Some rel /\
                  forall v' l, m !! (name, v') = Some l -> v' <= v
              | None => forall v', m !! (name, v') = None
              end)).
  - intros v'. apply lookup_empty.
  - intros [n k] x m' acc Hfresh IH. simpl.
    destruct (String.eqb_spec n name) as [-> | Hne].
    + destruct acc as [[v0 rel0] |].
      * destruct IH as [Hv0 Hmax].
        assert (Hk : v0 <> k) by (intros ->; congruence).
        destruct (v0 <? k)%Z eqn:Hlt.
        -- apply Z.ltb_lt in Hlt. split; [apply lookup_insert_eq |].
           intros v' l Hl. destruct (decide (v' = k)) as [-> | Hv']; [lia |].
           rewrite lookup_insert_ne in Hl by congruence.
           specialize (Hmax _ _ Hl). lia.
        -- apply Z.ltb_ge in Hlt. split.
           ++ rewrite lookup_insert_ne by congruence. assumption.
           ++ intros v' l Hl. destruct (decide (v' = k)) as [-> | Hv']; [lia |].
              rewrite lookup_insert_ne in Hl by congruence. eauto.
      * split; [apply lookup_insert_eq |].
        intros v' l Hl. destruct (decide (v' = k)) as [-> | Hv']; [lia |].
        rewrite lookup_insert_ne in Hl by congruence. rewrite IH in Hl. discriminate.
    + destruct acc as [[v0 rel0] |].
      * destruct IH as [Hv0 Hmax]. split.
        -- rewrite lookup_insert_ne by congruence. assumption.
        -- intros v' l Hl. rewrite lookup_insert_ne in Hl by congruence. eauto.
      * intros v'. rewrite lookup_insert_ne by congruence. apply IH.
Qed.

Lemma memory_lookup_state (name : string) (rev : Z) (s : State (gmap (string * Z) loc)) :
  snd (lookup memory_cfg name rev s) = s.
Proof.
  unfold lookup; simpl. destruct (0 <? rev)%Z.
  - unfold Memory.Get. destruct (driver s !! (name, rev)); reflexivity.
  - unfold Memory.Last. destruct (Memory.newest name (driver s)) as [[v l] |]; reflexivity.
Qed.

Lemma memory_lookup_driver (name : string) (rev : Z)
      (s s' : State (gmap (string * Z) loc)) :
  driver s = driver s' ->
  fst (lookup memory_cfg name rev s) = fst (lookup memory_cfg name rev s').
Proof.
  intros Hd. unfold lookup; simpl. destruct (0 <? rev)%Z.
  - unfold Memory.Get. rewrite Hd. destruct (driver s' !! (name, rev)); reflexivity.
  - unfold Memory.Last. rewrite Hd.
    destruct (Memory.newest name (driver s')) as [[v l] |]; reflexivity.
Qed.

Lemma Memory_wf_assign (h : list Release) (d : gmap (string * Z) loc) (rel : loc)
      (r r' : Release) :
  Memory.wf (mkState h d) -> h !! rel = Some r -> Memory.key_of r' = Memory.key_of r ->
  Memory.wf (mkState (<[rel := r']> h) d).
Proof.
  intros Hwf Hrel Hkey k l Hl. simpl in *.
  destruct (Hwf _ _ Hl) as (r1 & Hr1 & Hk1). simpl in Hr1.
  destruct (decide (l = rel)) as [-> | Hne].
  - exists r'. split.
    + apply list_lookup_insert_eq. eapply lookup_lt_Some; eauto.
    + congruence.
  - exists r1. split; [| assumption].
    rewrite list_lookup_insert_ne by congruence. assumption.
Qed.

(** The three ways a call ends on a well-formed in-memory store. *)
Lemma Memory_SetStatus_cases (name : string) (status : Status) (rev : Z)
      (allowed : list Status) (w : World (gmap (string * Z) loc)) :
  Memory.wf (state w) ->
  let w1 := log (lookup_call name rev) (put_state (state w) w) in
  (exists cause,
      fst (lookup memory_cfg name rev (state w)) = inl cause /\
      SetStatus memory_cfg name status rev allowed w
      = Some (Some (lookup_error name rev cause), w1)) \/
  (exists rel r v,
      fst (lookup memory_cfg name rev (state w)) = inr rel /\
      driver (state w) !! (name, v) = Some rel /\ (0 < rev -> v = rev) /\
      heap (state w) !! rel = Some r /\ Memory.key_of r = (name, v) /\
      ((allowed <> [] /\ ~ In (Info_Status (Release_Info r)) allowed /\
        SetStatus memory_cfg name status rev allowed w
        = Some (Some (PreconditionError (Info_Status (Release_Info r)) allowed), w1)) \/
       ((allowed = [] \/ In (Info_Status (Release_Info r)) allowed) /\
        SetStatus memory_cfg name status rev allowed w
        = Some (None,
                log (CallUpdate rel)
                    (put_state (mkState (<[rel := mutate status (clock w) r]> (heap (state w)))
                                        (driver (state w))) w1))))).
Proof.
  intros Hwf w1. rewrite SetStatus_unfold. unfold SetStatus_flat.
  pose proof (memory_lookup_state name rev (state w)) as Hs1.
  destruct (lookup memory_cfg name rev (state w)) as [[cause | rel] s1] eqn:Hlook;
    simpl in Hs1; subst s1.
  - left. exists cause. split; reflexivity.
  - right. destruct (Memory_lookup_inv _ _ _ _ _ Hlook) as (_ & v & Hidx & Hv).
    destruct (Hwf _ _ Hidx) as (r & Hr & Hkey).
    exists rel, r, v. rewrite Hr.
    split; [reflexivity |]. split; [assumption |]. split; [assumption |].
    split; [reflexivity |]. split; [assumption |].
    destruct (0 <? length allowed)%nat eqn:Hlen; simpl.
    + apply nonempty_length in Hlen.
      destruct (allowed_loop (Info_Status (Release_Info r)) allowed) eqn:Hal; simpl.
      * right. apply allowed_loop_In in Hal. split; [right; assumption |].
        unfold Memory.Update. simpl.
        rewrite list_lookup_insert_eq by (eapply lookup_lt_Some; eauto).
        rewrite key_of_mutate, Hkey, Hidx, insert_id by assumption. reflexivity.
      * left. split; [assumption |]. split; [| reflexivity].
        intros Hin. apply allowed_loop_In in Hin. congruence.
    + right. split.
      { left. destruct allowed; [reflexivity | discriminate]. }
      unfold Memory.Update. simpl.
      rewrite list_lookup_insert_eq by (eapply lookup_lt_Some; eauto).
      rewrite key_of_mutate, Hkey, Hidx, insert_id by assumption. reflexivity.
Qed.

(** On a well-formed in-memory store every call returns; it never adds or
    removes a release or a revision, keeps the store well-formed, never
    fails in the update, and leaves the store exactly as it was whenever
    it returns an error. *)
Theorem Memory_SetStatus_keeps_store_shape (name : string) (status : Status) (rev : Z)
        (allowed : list Status) (w : World (gmap (string * Z) loc)) :
  Memory.wf (state w) ->
  exists res w',
    SetStatus memory_cfg name status rev allowed w = Some (res, w') /\
    driver (state w') = driver (state w) /\
    length (heap (state w')) = length (heap (state w)) /\
    Memory.wf (state w') /\
    (res <> None -> state w' = state w) /\
    (forall cause, res <> Some (update_error name cause)).
Proof.
  intros Hwf.
  destruct (Memory_SetStatus_cases name status rev allowed w Hwf)
    as [(cause & _ & Hrun) | (rel & r & v & _ & _ & _ & Hr & _ & [(_ & _ & Hrun) | (_ & Hrun)])];
    rewrite Hrun; eexists _, _; (split; [reflexivity |]); simpl.
  - repeat split; try assumption.
    intros c. unfold lookup_error, update_error, Errorf_w.
    destruct (0 <? rev)%Z; [| discriminate].
    intros [= H _].
  - repeat split; try assumption. discriminate.
  - split; [reflexivity |]. split; [apply length_insert |]. split; [| split].
    + destruct (state w) as [h d] eqn:Hst. simpl in *.
      eapply Memory_wf_assign; eauto.
    + intros Hn. contradiction.
    + discriminate.
Qed.

Lemma Memory_SetStatus_keeps_store_shape_witness :
  exists res w',
    SetStatus memory_cfg "r2" StatusFailed 0 [StatusPendingUpgrade] world_r2 = Some (res, w') /\
    driver (state w') = driver (state world_r2) /\
    length (heap (state w')) = length (heap (state world_r2)) /\
    Memory.wf (state w') /\
    (res <> None -> state w' = state world_r2) /\
    (forall cause, res <> Some (update_error "r2" cause)).
Proof.
  apply (Memory_SetStatus_keeps_store_shape "r2" StatusFailed 0 [StatusPendingUpgrade] world_r2).
  apply Memory_wf_Create, Memory_wf_Create, Memory_wf_empty.
Defined.

(** A later call reads what an earlier call wrote: after a successful call
    that set [status], a second call on the same release and selector
    finds [status] as the current status.  With a non-empty allowed list
    that does not hold [status] it fails on the precondition and changes
    nothing (so a guarded transition whose target is outside its own
    allowed list is applied once); otherwise it succeeds and the revision
    shows the second status. *)
Theorem Memory_SetStatus_then_again (name : string) (status : Status) (rev : Z)
        (allowed : list Status) (w w' : World (gmap (string * Z) loc))
        (status2 : Status) (allowed2 : list Status) :
  Memory.wf (state w) ->
  SetStatus memory_cfg name status rev allowed w = Some (None, w') ->
  exists v,
    (0 < rev -> v = rev) /\
    shown_status Memory.storage (state w') name v = Some status /\
    (allowed2 <> [] -> ~ In status allowed2 ->
     SetStatus memory_cfg name status2 rev allowed2 w'
     = Some (Some (PreconditionError status allowed2),
             log (lookup_call name rev) (put_state (state w') w'))) /\
    (allowed2 = [] \/ In status allowed2 ->
     exists w'',
       SetStatus memory_cfg name status2 rev allowed2 w' = Some (None, w'') /\
       shown_status Memory.storage (state w'') name v = Some status2).
Proof.
  intros Hwf Hrun.
  destruct (Memory_SetStatus_cases name status rev allowed w Hwf)
    as [(cause & _ & Hrun1)
       | (rel & r & v & Hlk & Hidx & Hv & Hr & Hkey & [(_ & _ & Hrun1) | (_ & Hrun1)])];
    rewrite Hrun1 in Hrun; try discriminate.
  injection Hrun as <-.
  set (r1 := mutate status (clock w) r).
  set (s' := mkState (<[rel := r1]> (heap (state w))) (driver (state w))).
  assert (Hlt : (rel < length (heap (state w)))%nat) by (eapply lookup_lt_Some; eauto).
  assert (Hr1 : heap s' !! rel = Some r1) by (apply list_lookup_insert_eq; assumption).
  assert (Hwf' : Memory.wf s').
  { destruct (state w) as [h d] eqn:Hst. simpl in *.
    eapply Memory_wf_assign; eauto. }
  exists v. split; [assumption |]. split.
  { unfold shown_status. rewrite Memory_view_eq. simpl. rewrite Hidx.
    rewrite list_lookup_insert_eq by assumption. reflexivity. }
  match goal with
  | |- context [SetStatus _ _ _ _ _ ?W] => set (w2 := W)
  end.
  assert (Hst2 : state w2 = s') by reflexivity.
  assert (Hwf2 : Memory.wf (state w2)) by (rewrite Hst2; assumption).
  assert (Hlk2 : fst (lookup memory_cfg name rev (state w2)) = inr rel).
  { rewrite <- Hlk. apply memory_lookup_driver. reflexivity. }
  destruct (Memory_SetStatus_cases name status2 rev allowed2 w2 Hwf2)
    as [(cause & Hc & _)
       | (rel2 & r2 & v2 & Hlk3 & Hidx2 & Hv2 & Hr2 & Hkey2 & Hcases)];
    [congruence |].
  assert (rel2 = rel) by congruence. subst rel2.
  assert (r2 = r1) by (rewrite Hst2 in Hr2; congruence). subst r2.
  assert (v2 = v).
  { change (Memory.key_of r1) with (Memory.key_of r) in Hkey2. congruence. }
  subst v2.
  change (Info_Status (Release_Info r1)) with status in Hcases.
  split.
  - intros Hne Hnin.
    destruct Hcases as [(_ & _ & H2) | ([Hnil | Hin] & _)];
      [exact H2 | contradiction | contradiction].
  - intros Hpass.
    destruct Hcases as [Hcases | (_ & H2)].
    + destruct Hcases as (Hne0 & Hnin & _).
      destruct Hpass as [-> | Hin]; [| contradiction].
      exfalso. apply Hne0. reflexivity.
    + eexists. split; [exact H2 |].
      unfold shown_status. rewrite Memory_view_eq. simpl. rewrite Hidx.
      rewrite list_lookup_insert_eq by (rewrite length_insert; assumption).
      reflexivity.
Qed.

Lemma Memory_SetStatus_then_again_witness :
  SetStatus memory_cfg "r1" StatusFailed 0 [StatusDeployed] world_r1
  = Some (None, after (SetStatus memory_cfg "r1" StatusFailed 0 [StatusDeployed] world_r1)
                      world_r1) /\
  exists w2,
    SetStatus memory_cfg "r1" StatusFailed 0 [StatusDeployed]
              (after (SetStatus memory_cfg "r1" StatusFailed 0 [StatusDeployed] world_r1)
                     world_r1)
    = Some (Some (PreconditionError StatusFailed [StatusDeployed]), w2).
Proof.
  assert (Hrun : SetStatus memory_cfg "r1" StatusFailed 0 [StatusDeployed] world_r1
                 = Some (None, after (SetStatus memory_cfg "r1" StatusFailed 0
                                        [StatusDeployed] world_r1) world_r1))
    by (vm_compute; reflexivity).
  split; [exact Hrun |].
  destruct (Memory_SetStatus_then_again "r1" StatusFailed 0 [StatusDeployed] world_r1 _
              StatusFailed [StatusDeployed]
              (Memory_wf_Create _ _ Memory_wf_empty) Hrun)
    as (v & _ & _ & Hfail & _).
  clear Hrun. eexists. apply Hfail.
  - intros Hnil. discriminate Hnil.
  - intros [Heq | []]. discriminate Heq.
Defined.

(** A release that is not in the store: with the latest selector (0 or
    below) the call returns [ReleaseNotFoundError] exactly when no revision
    of that name is stored; with an explicit revision that is not stored it
    returns "failed to get release <name> revision <n>: release: not
    found", whether or not other revisions of the release exist.  The
    second part is for names without ".v": helm's driver splits its keys
    at ".v" and answers a lookup by name and revision for any other name
    with an invalid-key error, which the store model here does not
    reproduce.  In both cases the store is left as it was and no update is
    attempted. *)
Theorem Memory_SetStatus_missing (name : string) (status : Status) (rev : Z)
        (allowed : list Status) (w : World (gmap (string * Z) loc)) :
  (rev <= 0 ->
   ((forall v, driver (state w) !! (name, v) = None) <->
    SetStatus memory_cfg name status rev allowed w
    = Some (Some (ReleaseNotFoundError name),
            log (CallLast name) (put_state (state w) w)))) /\
  (0 < rev ->
   Fmt.containsb name ".v" = false ->
   driver (state w) !! (name, rev) = None ->
   SetStatus memory_cfg name status rev allowed w
   = Some (Some (wrapError ("failed to get release " +:+ name +:+ " revision " +:+
                            Fmt.decimal rev +:+ ": release: not found")
                           (errorString ErrReleaseNotFound)),
           log (CallGet name rev) (put_state (state w) w))).
Proof.
  split.
  - intros Hrev. apply Z.ltb_ge in Hrev.
    rewrite SetStatus_unfold. unfold SetStatus_flat, lookup, lookup_call, lookup_error.
    rewrite Hrev. simpl. unfold Memory.Last.
    pose proof (Memory_newest_spec name (driver (state w))) as Hspec.
    destruct (Memory.newest name (driver (state w))) as [[v rel] |].
    + destruct Hspec as [Hv _]. split.
      * intros Hnone. rewrite Hnone in Hv. discriminate.
      * destruct (heap (state w) !! rel) as [r |]; [| discriminate].
        destruct (_ && _); [discriminate |].
        unfold Memory.Update. simpl.
        destruct (_ !! rel) as [r1 |]; [| discriminate].
        destruct (driver (state w) !! Memory.key_of r1); discriminate.
    + split; [reflexivity | intros _; exact Hspec].
  - intros Hrev _ Hnone. apply Z.ltb_lt in Hrev.
    rewrite SetStatus_unfold. unfold SetStatus_flat, lookup, lookup_call, lookup_error.
    rewrite Hrev. simpl. unfold Memory.Get. rewrite Hnone.
    unfold Errorf_w. simpl Error. rewrite str_app_nil_r, !str_app_assoc. reflexivity.
Qed.

Lemma Memory_SetStatus_missing_witness :
  SetStatus memory_cfg "non-existent" StatusFailed 0 [] world_r2
  = Some (Some (ReleaseNotFoundError "non-existent"),
          log (CallLast "non-existent") (put_state (state world_r2) world_r2)) /\
  SetStatus memory_cfg "r2" StatusFailed 5 [] world_r2
  = Some (Some (wrapError ("failed to get release " +:+ "r2" +:+ " revision " +:+
                           Fmt.decimal 5 +:+ ": release: not found")
                          (errorString ErrReleaseNotFound)),
          log (CallGet "r2" 5) (put_state (state world_r2) world_r2)).
Proof.
  split.
  - apply (proj1 (Memory_SetStatus_missing "non-existent" StatusFailed 0 [] world_r2));
      [lia |].
    intros v. unfold world_r2, store_r2, Memory.Create, Memory.empty. simpl.
    rewrite !lookup_insert_ne by (intros [= ? ?]; discriminate).
    apply lookup_empty.
  - apply (proj2 (Memory_SetStatus_missing "r2" StatusFailed 5 [] world_r2));
      [lia | reflexivity |].
    vm_compute. reflexivity.
Defined.

(** With the latest selector (0 or below) the revision a successful call
    changes is the highest one stored under the name. *)
Theorem Memory_SetStatus_latest_is_highest (name : string) (status : Status) (rev : Z)
        (allowed : list Status) (w w' : World (gmap (string * Z) loc)) :
  Memory.wf (state w) -> rev <= 0 ->
  SetStatus memory_cfg name status rev allowed w = Some (None, w') ->
  exists v r,
    view Memory.storage (state w) name v = Some r /\
    (forall v', view Memory.storage (state w) name v' <> None -> v' <= v) /\
    view Memory.storage (state w') name v = Some (mutate status (clock w) r) /\
    (forall v', v' <> v ->
                view Memory.storage (state w') name v' = view Memory.storage (state w) name v').
Proof.
  intros Hwf Hrev Hrun.
  destruct (Memory_SetStatus_cases name status rev allowed w Hwf)
    as [(cause & _ & Hrun1)
       | (rel & r & v & Hlk & Hidx & _ & Hr & Hkey & [(_ & _ & Hrun1) | (_ & Hrun1)])];
    rewrite Hrun1 in Hrun; try discriminate.
  injection Hrun as <-.
  assert (Hlt : (rel < length (heap (state w)))%nat) by (eapply lookup_lt_Some; eauto).
  exists v, r. split; [| split; [| split]].
  - rewrite Memory_view_eq, Hidx. assumption.
  - intros v' Hv'. rewrite Memory_view_eq in Hv'.
    destruct (driver (state w) !! (name, v')) as [l |] eqn:Hl; [| contradiction].
    apply Z.ltb_ge in Hrev.
    unfold lookup in Hlk. rewrite Hrev in Hlk. simpl in Hlk. unfold Memory.Last in Hlk.
    pose proof (Memory_newest_spec name (driver (state w))) as Hspec.
    destruct (Memory.newest name (driver (state w))) as [[v0 rel0] |]; [| discriminate].
    simpl in Hlk. injection Hlk as ->. destruct Hspec as [Hv0 Hmax].
    destruct (Hwf _ _ Hv0) as (r0 & Hr0 & Hk0).
    assert (v0 = v) by congruence. subst v0. eauto.
  - rewrite Memory_view_eq. simpl. rewrite Hidx.
    apply list_lookup_insert_eq; assumption.
  - intros v' Hne. rewrite !Memory_view_eq. simpl.
    destruct (driver (state w) !! (name, v')) as [l |] eqn:Hl; [| reflexivity].
    apply list_lookup_insert_ne. intros <-.
    destruct (Hwf _ _ Hl) as (r1 & Hr1 & Hk1). congruence.
Qed.

Lemma Memory_SetStatus_latest_is_highest_witness :
  exists v r,
    view Memory.storage (state world_r2) "r2" v = Some r /\
    (forall v', view Memory.storage (state world_r2) "r2" v' <> None -> v' <= v) /\
    view Memory.storage
         (state (after (SetStatus memory_cfg "r2" StatusFailed 0 [] world_r2) world_r2)) "r2" v
    = Some (mutate StatusFailed (clock world_r2) r) /\
    (forall v', v' <> v ->
       view Memory.storage
            (state (after (SetStatus memory_cfg "r2" StatusFailed 0 [] world_r2) world_r2))
            "r2" v'
       = view Memory.storage (state world_r2) "r2" v').
Proof.
  apply (Memory_SetStatus_latest_is_highest "r2" StatusFailed 0 [] world_r2).
  - apply Memory_wf_Create, Memory_wf_Create, Memory_wf_empty.
  - lia.
  - vm_compute. reflexivity.
Defined.

(** ** The wrapper beyond validation and skipping *)

Lemma parse_from_first_invalid (pre : list string) (s : string) (post : list string)
      (acc : list Status) :
  List.Forall (fun x => In x ValidStatuses) pre -> ~ In s ValidStatuses ->
  parse_from (pre ++ s :: post) acc =
  inl (wrapError ("invalid --from status " +:+ Fmt.quote s +:+ ": " +:+
                  "invalid status: " +:+ s +:+ hint)
                 (errorString ("invalid status: " +:+ s))).
Proof.
  revert acc. induction pre as [| a pre IH]; intros acc Hpre Hs; simpl.
  - rewrite (ParseStatus_invalid s Hs). unfold Errorf_w. simpl Error.
    rewrite !str_app_assoc. reflexivity.
  - inversion Hpre as [| ? ? Ha Hrest]; subst.
    rewrite (ParseStatus_valid a Ha). apply IH; assumption.
Qed.

(** Validation goes in a fixed order: the target status first, then the
    [--from] entries from left to right.  The error names the first
    offender as it was typed (and, for a [--from] entry, once more in
    quoted form, spelled out here for an ASCII entry), later entries are
    not looked at, and the world is untouched. *)
Theorem runWithConfigFactory_validation_order {D} (releaseName statusStr : string)
        (rest : list string) (rev : Z) (noFail : bool)
        (configFactory : unit -> error + Configuration D) (w : World D) :
  (forall fromStatuses,
      ~ In statusStr ValidStatuses ->
      runWithConfigFactory (releaseName :: statusStr :: rest) rev fromStatuses noFail
                           configFactory w
      = Some (Some (wrapError ("invalid status: " +:+ statusStr +:+ hint)
                              (errorString ("invalid status: " +:+ statusStr))), w)) /\
  (forall pre s post,
      In statusStr ValidStatuses ->
      List.Forall (fun x => In x ValidStatuses) pre -> ~ In s ValidStatuses ->
      exists quoted,
        runWithConfigFactory (releaseName :: statusStr :: rest) rev (pre ++ s :: post) noFail
                             configFactory w
        = Some (Some (wrapError ("invalid --from status " +:+ quoted +:+ ": " +:+
                                 "invalid status: " +:+ s +:+ hint)
                                (errorString ("invalid status: " +:+ s))), w) /\
        (Fmt.is_ascii s = true -> quoted = Fmt.quote s)).
Proof.
  split.
  - intros fromStatuses Hs. unfold runWithConfigFactory. simpl.
    rewrite (ParseStatus_invalid _ Hs). reflexivity.
  - intros pre s post Hs Hpre Hbad. exists (Fmt.quote s).
    split; [| reflexivity]. unfold runWithConfigFactory. simpl.
    rewrite (ParseStatus_valid _ Hs), (parse_from_first_invalid pre s post [] Hpre Hbad).
    reflexivity.
Qed.

Lemma runWithConfigFactory_validation_order_witness :
  runWithConfigFactory ("r1" :: "Failed" :: []) 0 ["bogus"] false
                       (fun _ => inr memory_cfg) world_r1
  = Some (Some (wrapError ("invalid status: " +:+ "Failed" +:+ hint)
                          (errorString ("invalid status: " +:+ "Failed"))), world_r1) /\
  exists quoted,
    runWithConfigFactory ("r1" :: "failed" :: []) 0
                         (["deployed"] ++ "Deployed" :: ["bogus"]) false
                         (fun _ => inr memory_cfg) world_r1
    = Some (Some (wrapError ("invalid --from status " +:+ quoted +:+ ": " +:+
                             "invalid status: " +:+ "Deployed" +:+ hint)
                            (errorString ("invalid status: " +:+ "Deployed"))), world_r1) /\
    (Fmt.is_ascii "Deployed" = true -> quoted = Fmt.quote "Deployed").
Proof.
  split.
  - apply (proj1 (runWithConfigFactory_validation_order "r1" "Failed" [] 0 false
                    (fun _ => inr memory_cfg) world_r1)).
    unfold ValidStatuses. simpl. intuition discriminate.
  - apply (proj2 (runWithConfigFactory_validation_order "r1" "failed" [] 0 false
                    (fun _ => inr memory_cfg) world_r1)).
    + unfold ValidStatuses. simpl. tauto.
    + constructor; [unfold ValidStatuses; simpl; tauto | constructor].
    + unfold ValidStatuses. simpl. intuition discriminate.
Defined.

(** When the configuration factory fails, the wrapper returns "failed to
    create configuration: <cause>" wrapping the cause; the factory has been
    invoked once, the store has not been called and nothing is printed. *)
Theorem runWithConfigFactory_factory_failure {D} (releaseName statusStr : string)
        (rest : list string) (rev : Z) (fromStatuses : list string) (noFail : bool)
        (configFactory : unit -> error + Configuration D) (w : World D) (err : error) :
  In statusStr ValidStatuses ->
  List.Forall (fun x => In x ValidStatuses) fromStatuses ->
  configFactory tt = inl err ->
  exists w',
    runWithConfigFactory (releaseName :: statusStr :: rest) rev fromStatuses noFail
                         configFactory w
    = Some (Some (wrapError ("failed to create configuration: " +:+ Error err) err), w') /\
    calls w' = (calls w ++ [CallConfigFactory])%list /\
    state w' = state w /\ stdout w' = stdout w /\ clock w' = clock w.
Proof.
  intros Hs Hfrom Hfac. unfold runWithConfigFactory. simpl.
  rewrite (ParseStatus_valid _ Hs), (parse_from_valid _ [] Hfrom).
  unfold bind, invoke. rewrite Hfac. unfold ret, Errorf_w.
  rewrite str_app_nil_r. eexists. split; [reflexivity |]. repeat split.
Qed.

Lemma runWithConfigFactory_factory_failure_witness :
  exists w',
    runWithConfigFactory ("my-release" :: "failed" :: []) 0 [] false
                         (fun _ => inl (errorString "config creation failed")) world_r1
    = Some (Some (wrapError ("failed to create configuration: " +:+
                             Error (errorString "config creation failed"))
                            (errorString "config creation failed")), w') /\
    calls w' = (calls world_r1 ++ [CallConfigFactory])%list /\
    state w' = state world_r1 /\ stdout w' = stdout world_r1 /\ clock w' = clock world_r1.
Proof.
  apply (runWithConfigFactory_factory_failure "my-release" "failed" [] 0 [] false
           (fun _ => inl (errorString "config creation failed")) world_r1).
  - unfold ValidStatuses. simpl. tauto.
  - constructor.
  - reflexivity.
Defined.

(** With valid arguments and a working factory the wrapper runs
    [SetStatus] on the strings as they were given (the target as typed, the
    [--from] entries in their order, repetitions kept) and, when that
    succeeds, prints one line and returns success: the line names the
    revision exactly when [rev] is above 0.  The release name stands in
    the line in quoted form, spelled out here for an ASCII name. *)
Theorem runWithConfigFactory_success_report {D} (releaseName statusStr : string)
        (rest : list string) (rev : Z) (fromStatuses : list string) (noFail : bool)
        (configFactory : unit -> error + Configuration D) (w w2 : World D)
        (cfg : Configuration D) :
  In statusStr ValidStatuses ->
  List.Forall (fun x => In x ValidStatuses) fromStatuses ->
  configFactory tt = inr cfg ->
  SetStatus cfg releaseName statusStr rev fromStatuses (log CallConfigFactory w)
  = Some (None, w2) ->
  exists text quoted,
    runWithConfigFactory (releaseName :: statusStr :: rest) rev fromStatuses noFail
                         configFactory w
    = Some (None, mkWorld (state w2) (clock w2) (stdout w2 +:+ text) (calls w2)) /\
    (Fmt.is_ascii releaseName = true -> quoted = Fmt.quote releaseName) /\
    (0 < rev ->
     text = "Release " +:+ quoted +:+ " revision " +:+ Fmt.decimal rev +:+
            " status set to " +:+ Fmt.dquote +:+ statusStr +:+ Fmt.dquote +:+ Fmt.newline) /\
    (rev <= 0 ->
     text = "Release " +:+ quoted +:+ " status set to " +:+
            Fmt.dquote +:+ statusStr +:+ Fmt.dquote +:+ Fmt.newline).
Proof.
  intros Hs Hfrom Hfac Hrun. unfold runWithConfigFactory. simpl.
  rewrite (ParseStatus_valid _ Hs), (parse_from_valid _ [] Hfrom).
  unfold bind, invoke. rewrite Hfac. simpl. rewrite Hrun.
  assert (Hq : Fmt.quote statusStr = Fmt.dquote +:+ statusStr +:+ Fmt.dquote).
  { unfold Fmt.quote. rewrite quote_body_plain; [reflexivity |].
    unfold ValidStatuses in Hs. simpl in Hs.
    repeat (destruct Hs as [<- | Hs]; [reflexivity |]). destruct Hs. }
  destruct (0 <? rev)%Z eqn:Hrev; unfold Fprintf, ret; simpl;
    eexists _, (Fmt.quote releaseName);
    (split; [reflexivity |]); (split; [reflexivity |]); rewrite Hq, !str_app_assoc.
  - split; [reflexivity |]. intros Hle. apply Z.ltb_lt in Hrev. lia.
  - split; [| reflexivity]. intros Hlt. apply Z.ltb_ge in Hrev. lia.
Qed.

Lemma runWithConfigFactory_success_report_witness :
  exists text quoted,
    runWithConfigFactory ("r2" :: "failed" :: []) 1 [] false (fun _ => inr memory_cfg) world_r2
    = Some (None,
            mkWorld (state (after (SetStatus memory_cfg "r2" "failed" 1 []
                                             (log CallConfigFactory world_r2)) world_r2))
                    (clock (after (SetStatus memory_cfg "r2" "failed" 1 []
                                             (log CallConfigFactory world_r2)) world_r2))
                    (stdout (after (SetStatus memory_cfg "r2" "failed" 1 []
                                              (log CallConfigFactory world_r2)) world_r2)
                     +:+ text)
                    (calls (after (SetStatus memory_cfg "r2" "failed" 1 []
                                             (log CallConfigFactory world_r2)) world_r2))) /\
    (Fmt.is_ascii "r2" = true -> quoted = Fmt.quote "r2") /\
    (0 < 1 ->
     text = "Release " +:+ quoted +:+ " revision " +:+ Fmt.decimal 1 +:+
            " status set to " +:+ Fmt.dquote +:+ "failed" +:+ Fmt.dquote +:+ Fmt.newline) /\
    (1 <= 0 ->
     text = "Release " +:+ quoted +:+ " status set to " +:+
            Fmt.dquote +:+ "failed" +:+ Fmt.dquote +:+ Fmt.newline).
Proof.
  apply (runWithConfigFactory_success_report "r2" "failed" [] 1 [] false
           (fun _ => inr memory_cfg) world_r2 _ memory_cfg).
  - unfold ValidStatuses. simpl. tauto.
  - constructor.
  - reflexivity.
  - vm_compute. reflexivity.
Defined.

(** The [noFail] flag only changes how a precondition failure is reported:
    a run with the flag set makes the same calls, leaves the same state and
    returns the same result as a run without it, except that where the
    latter returns a [PreconditionError] the former prints "Skipped: "
    followed by that error's text and returns success. *)
Theorem runWithConfigFactory_noFail_only_reporting {D} (args : list string) (rev : Z)
        (fromStatuses : list string)
        (configFactory : unit -> error + Configuration D) (w : World D) :
  match runWithConfigFactory args rev fromStatuses false configFactory w with
  | None => runWithConfigFactory args rev fromStatuses true configFactory w = None
  | Some (Some (PreconditionError cur allowed), w') =>
      runWithConfigFactory args rev fromStatuses true configFactory w
      = Some (None,
              mkWorld (state w') (clock w')
                      (stdout w' +:+ "Skipped: " +:+ Error (PreconditionError cur allowed) +:+
                       Fmt.newline)
                      (calls w'))
  | Some (res, w') =>
      runWithConfigFactory args rev fromStatuses true configFactory w = Some (res, w')
  end.
Proof.
  unfold runWithConfigFactory.
  destruct (args !! 0%nat) as [releaseName |]; [| reflexivity].
  destruct (args !! 1%nat) as [statusStr |]; [| reflexivity].
  destruct (ParseStatus statusStr) as [targetStatus [err |]]; [reflexivity |].
  destruct (parse_from fromStatuses []) as [err | allowed] eqn:Hfrom.
  - destruct (List.Forall_Exists_dec (fun s => In s ValidStatuses)
                (fun s => in_dec string_dec s ValidStatuses) fromStatuses) as [Hall | Hex].
    + rewrite (parse_from_valid _ [] Hall) in Hfrom. discriminate.
    + destruct (parse_from_invalid _ [] Hex) as (s & _ & _ & Heq).
      rewrite Heq in Hfrom. injection Hfrom as <-. reflexivity.
  - unfold bind, invoke.
    destruct (configFactory tt) as [err | cfg]; [reflexivity |].
    destruct (SetStatus cfg releaseName targetStatus rev allowed (log CallConfigFactory w))
      as [[[err |] w2] |] eqn:Hrun; [| | reflexivity].
    + destruct (SetStatus_errors _ _ _ _ _ _ _ _ Hrun) as [[c ->] | [[cur ->] | [c ->]]].
      * unfold lookup_error. destruct (0 <? rev)%Z; reflexivity.
      * reflexivity.
      * reflexivity.
    + destruct (0 <? rev)%Z; reflexivity.
Qed.

(** The wrapper panics in two cases only: it was given fewer than two
    arguments, or the arguments were valid, the factory delivered a
    configuration and [SetStatus] itself panicked. *)
Theorem runWithConfigFactory_panics_iff {D} (args : list string) (rev : Z)
        (fromStatuses : list string) (noFail : bool)
        (configFactory : unit -> error + Configuration D) (w : World D) :
  runWithConfigFactory args rev fromStatuses noFail configFactory w = None <->
  (length args < 2)%nat \/
  exists releaseName statusStr rest targetStatus allowed cfg,
    args = releaseName :: statusStr :: rest /\
    ParseStatus statusStr = (targetStatus, None) /\
    parse_from fromStatuses [] = inr allowed /\
    configFactory tt = inr cfg /\
    SetStatus cfg releaseName targetStatus rev allowed (log CallConfigFactory w) = None.
Proof.
  unfold runWithConfigFactory.
  destruct args as [| releaseName [| statusStr rest]]; simpl.
  - split; [intros _; left; lia | reflexivity].
  - split; [intros _; left; lia | reflexivity].
  - split.
    + intros H. right.
      destruct (ParseStatus statusStr) as [targetStatus [err |]] eqn:HP; [discriminate |].
      destruct (parse_from fromStatuses []) as [err | allowed] eqn:HF; [discriminate |].
      unfold bind, invoke in H.
      destruct (configFactory tt) as [err | cfg] eqn:HC; [discriminate |].
      destruct (SetStatus cfg releaseName targetStatus rev allowed (log CallConfigFactory w))
        as [[[err |] w2] |] eqn:Hrun.
      * destruct (_ && _) in H; discriminate.
      * destruct (0 <? rev)%Z in H; discriminate.
      * exists releaseName, statusStr, rest, targetStatus, allowed, cfg. auto.
    + intros [Hlen | (n & s & r & t & al & cfg & Hargs & HP & HF & HC & Hrun)].
      * simpl in Hlen. lia.
      * injection Hargs as -> -> ->. rewrite HP, HF. unfold bind, invoke.
        rewrite HC, Hrun. reflexivity.
Qed.

(** ** Error texts *)

(** The text of a [PreconditionError] holds the two fixed phrases, the
    current status and every allowed status; the text of a
    [ReleaseNotFoundError] holds the release name.  (Statuses and names are
    quoted by [%q]; they appear verbatim when they are printable ASCII
    without quote or backslash, as is the case for every helm status.) *)
Theorem error_texts_hold_their_data (cur : Status) (allowed : list Status) (name : string) :
  Fmt.Contains (Error (PreconditionError cur allowed)) "current status " /\
  Fmt.Contains (Error (PreconditionError cur allowed)) " is not in allowed list: " /\
  (Fmt.plain cur = true -> Fmt.Contains (Error (PreconditionError cur allowed)) cur) /\
  (forall s, In s allowed -> Fmt.Contains (Error (PreconditionError cur allowed)) s) /\
  (Fmt.plain name = true -> Fmt.Contains (Error (ReleaseNotFoundError name)) name) /\
  (forall s, In s ValidStatuses -> Fmt.plain s = true).
Proof.
  simpl Error. unfold statusListToStrings, Status_String. rewrite map_id.
  split; [auto 10 with contains |]. split; [auto 10 with contains |].
  split; [| split; [| split]].
  - intros Hp. apply Contains_app_r, Contains_app_l. apply quote_Contains_plain, Hp.
  - intros s Hs. do 3 apply Contains_app_r. apply slice_Contains, Hs.
  - intros Hp. apply Contains_app_r, Contains_app_l. apply quote_Contains_plain, Hp.
  - intros s Hs. unfold ValidStatuses in Hs. simpl in Hs.
    repeat (destruct Hs as [<- | Hs]; [reflexivity |]). destruct Hs.
Qed.

Lemma error_texts_hold_their_data_witness :
  Fmt.Contains (Error (PreconditionError "deployed" ["pending-upgrade"; "pending-rollback"]))
               "deployed" /\
  Fmt.Contains (Error (PreconditionError "deployed" ["pending-upgrade"; "pending-rollback"]))
               "pending-rollback" /\
  Fmt.Contains (Error (ReleaseNotFoundError "non-existent")) "non-existent".
Proof.
  pose proof (error_texts_hold_their_data "deployed" ["pending-upgrade"; "pending-rollback"]
                "non-existent") as (_ & _ & Hcur & Hall & Hname & _).
  split; [apply Hcur; reflexivity |].
  split; [apply Hall; simpl; tauto | apply Hname; reflexivity].
Defined.

(** ** The install script *)

Lemma Install_lower_char_idem (c : ascii) :
  Install.lower_char (Install.lower_char c) = Install.lower_char c.
Proof. destruct c as [[] [] [] [] [] [] [] []]; reflexivity. Qed.

Lemma Install_to_lower_idem (s : string) :
  Install.to_lower (Install.to_lower s) = Install.to_lower s.
Proof.
  induction s as [| c s IH]; [reflexivity |].
  simpl. rewrite Install_lower_char_idem, IH. reflexivity.
Qed.

(** The script gives up exactly when [uname -m] is none of x86_64, aarch64
    and arm64 (the comparison is exact, so amd64 or X86_64 are turned
    down too); it then has printed the unsupported-architecture line with
    the name as reported and has not reached the download. *)
Theorem Install_unsupported_architecture (version uname_s uname_m : string) :
  (uname_m <> "x86_64" /\ uname_m <> "aarch64" /\ uname_m <> "arm64") <->
  Install.plan version uname_s uname_m
  = Install.Exit1 ["Installing helm-set-status v" +:+ version +:+ "...";
                   "Unsupported architecture: " +:+ uname_m].
Proof.
  unfold Install.plan, Install.normalise_arch.
  destruct (String.eqb_spec uname_m "x86_64") as [-> | H1].
  - split; [intros (H & _); contradiction | discriminate].
  - destruct (String.eqb_spec uname_m "aarch64") as [-> | H2]; simpl.
    + split; [intros (_ & H & _); contradiction | discriminate].
    + destruct (String.eqb_spec uname_m "arm64") as [-> | H3]; simpl.
      * split; [intros (_ & _ & H); contradiction | discriminate].
      * split; [reflexivity | auto].
Qed.

(** On a supported machine the script downloads
    helm-set-status_<version>_<os>_<arch>.<ext> from the release of that
    version, where <os> is [uname -s] in lower case, <arch> is amd64 for
    x86_64 and arm64 for both aarch64 and arm64, and <ext> is zip exactly
    when the lower-cased system name is "windows", tar.gz otherwise.  The
    case of the reported system name does not matter. *)
Theorem Install_download_plan (version uname_s uname_m : string) :
  uname_m = "x86_64" \/ uname_m = "aarch64" \/ uname_m = "arm64" ->
  exists ARCH EXT,
    Install.plan version uname_s uname_m
    = Install.Download
        ["Installing helm-set-status v" +:+ version +:+ "...";
         "Downloading from: " +:+
         Install.download_url version (Install.to_lower uname_s) ARCH EXT]
        (Install.download_url version (Install.to_lower uname_s) ARCH EXT) EXT /\
    (uname_m = "x86_64" -> ARCH = "amd64") /\
    (uname_m <> "x86_64" -> ARCH = "arm64") /\
    (Install.to_lower uname_s = "windows" -> EXT = "zip") /\
    (Install.to_lower uname_s <> "windows" -> EXT = "tar.gz") /\
    Install.plan version (Install.to_lower uname_s) uname_m
    = Install.plan version uname_s uname_m /\
    Install.plan version uname_s "aarch64" = Install.plan version uname_s "arm64".
Proof.
  intros Harch.
  assert (Hcase : Install.plan version (Install.to_lower uname_s) uname_m
                  = Install.plan version uname_s uname_m).
  { unfold Install.plan. rewrite Install_to_lower_idem. reflexivity. }
  unfold Install.plan at 1. unfold Install.extension.
  destruct (String.eqb_spec (Install.to_lower uname_s) "windows") as [Hw | Hw];
    destruct Harch as [-> | [-> | ->]]; simpl; eexists _, _;
    (split; [reflexivity |]); repeat split; try assumption;
    try reflexivity; try (intros; congruence); try (intros H; exfalso; apply H; reflexivity).
Qed.

Lemma Install_download_plan_witness :
  exists ARCH EXT,
    Install.plan "1.2.3" "Linux" "aarch64"
    = Install.Download
        ["Installing helm-set-status v" +:+ "1.2.3" +:+ "...";
         "Downloading from: " +:+
         Install.download_url "1.2.3" (Install.to_lower "Linux") ARCH EXT]
        (Install.download_url "1.2.3" (Install.to_lower "Linux") ARCH EXT) EXT /\
    ("aarch64" = "x86_64" -> ARCH = "amd64") /\
    ("aarch64" <> "x86_64" -> ARCH = "arm64") /\
    (Install.to_lower "Linux" = "windows" -> EXT = "zip") /\
    (Install.to_lower "Linux" <> "windows" -> EXT = "tar.gz") /\
    Install.plan "1.2.3" (Install.to_lower "Linux") "aarch64"
    = Install.plan "1.2.3" "Linux" "aarch64" /\
    Install.plan "1.2.3" "Linux" "aarch64" = Install.plan "1.2.3" "Linux" "arm64".
Proof.
  apply (Install_download_plan "1.2.3" "Linux" "aarch64").
  right. left. reflexivity.
Defined.

Example Install_linux_arm_url :
  Install.plan "1.2.3" "Linux" "aarch64"
  = Install.Download
      ["Installing helm-set-status v1.2.3...";
       "Downloading from: https://github.com/josegonzalez/helm-set-status/releases/download/v1.2.3/helm-set-status_1.2.3_linux_arm64.tar.gz"]
      "https://github.com/josegonzalez/helm-set-status/releases/download/v1.2.3/helm-set-status_1.2.3_linux_arm64.tar.gz"
      "tar.gz".
Proof. vm_compute. reflexivity. Qed.
